(** * osdump: bulk export of an OpenSearch index through [search_after]

    A shallow embedding of [osdump.go] and of the library calls it relies
    on (fastjson values, text/template execution, a buffered channel, a
    buffered file writer), followed by the properties of the export
    pipeline.

    Byte slices ([[]byte]) and Go strings are both sequences of 8-bit
    characters; they are modelled by [string]. *)

From Stdlib Require Import ZArith Lia Ascii String List Bool DecimalString.
From Stdlib Require DecimalPos.
From stdpp Require Import base option list strings gmap.

Set Warnings "-register-all".

(** String concatenation computes on literal prefixes. *)
#[local] Arguments String.append !s1 s2 : simpl nomatch.

Local Open Scope string_scope.
Local Open Scope list_scope.
Local Open Scope Z_scope.

Abbreviation bytes := string (only parsing).

(* ===================================================================== *)
(** ** Characters and small string helpers *)
(* ===================================================================== *)

Definition byte_of (c : ascii) : N := N_of_ascii c.
Definition char_of (n : N) : ascii := ascii_of_N n.

(** The double quote, and a text between double quotes. *)
Definition quote : ascii := Eval cbv in char_of 34.
Definition quoted (s : string) : string := String quote (s +:+ String quote "").

Definition is_digit (c : ascii) : bool :=
  (48 <=? byte_of c)%N && (byte_of c <=? 57)%N.

Definition digit_val (c : ascii) : Z := Z.of_N (byte_of c) - 48.

(** [strings.IndexByte(s, c) >= 0] *)
Fixpoint contains_byte (c : ascii) (s : string) : bool :=
  match s with
  | EmptyString => false
  | String d r => Ascii.eqb d c || contains_byte c r
  end.

Fixpoint all_bytes (p : ascii -> bool) (s : string) : bool :=
  match s with
  | EmptyString => true
  | String d r => p d && all_bytes p r
  end.

(** [s[:n]] and [s[n:]] on strings that are long enough. *)
Fixpoint take_bytes (n : nat) (s : string) : string :=
  match n, s with
  | S m, String c r => String c (take_bytes m r)
  | _, _ => EmptyString
  end.

Fixpoint drop_bytes (n : nat) (s : string) : string :=
  match n, s with
  | S m, String _ r => drop_bytes m r
  | _, _ => s
  end.

(** Go's [int] on the 64-bit platforms the tool targets. *)
Definition int_min : Z := - 2 ^ 63.
Definition int_max : Z := 2 ^ 63 - 1.
Definition wrap_int (z : Z) : Z := (z + 2 ^ 63) mod 2 ^ 64 - 2 ^ 63.
Definition in_int (z : Z) : bool := (int_min <=? z) && (z <=? int_max).

(** Decimal rendering of an [int], as [fmt] and [text/template] print it. *)
Definition string_of_Z (z : Z) : string := NilZero.string_of_int (Z.to_int z).

(* ===================================================================== *)
(** ** fastjson: values and the accessors used by the tool *)
(* ===================================================================== *)

Module fastjson.

(** A parsed value.  As in fastjson, numbers keep their source text, and
    strings and member names keep the raw text found between the quotes;
    they are unescaped only when an accessor asks for their content.
    Objects are sequences of members: order and duplicates are kept. *)
Inductive Value : Type :=
| VNull
| VTrue
| VFalse
| VNumber (s : string)
| VString (raw : string)
| VArray (a : list Value)
| VObject (kvs : list (string * Value)).

(** Induction principle that reaches into arrays and objects. *)
Section ValueInd.
Variable P : Value -> Prop.
Hypothesis Hnull : P VNull.
Hypothesis Htrue : P VTrue.
Hypothesis Hfalse : P VFalse.
Hypothesis Hnumber : forall s, P (VNumber s).
Hypothesis Hstring : forall s, P (VString s).
Hypothesis Harray : forall a, Forall P a -> P (VArray a).
Hypothesis Hobject : forall kvs, Forall (fun kv => P (snd kv)) kvs -> P (VObject kvs).

Fixpoint Value_ind' (v : Value) : P v :=
  match v with
  | VNull => Hnull
  | VTrue => Htrue
  | VFalse => Hfalse
  | VNumber s => Hnumber s
  | VString s => Hstring s
  | VArray a =>
      Harray a
        ((fix go (l : list Value) : Forall P l :=
            match l with
            | [] => List.Forall_nil P
            | x :: r => List.Forall_cons P x r (Value_ind' x) (go r)
            end) a)
  | VObject kvs =>
      Hobject kvs
        ((fix go (l : list (string * Value)) : Forall (fun kv => P (snd kv)) l :=
            match l with
            | [] => List.Forall_nil _
            | kv :: r => List.Forall_cons _ kv r (Value_ind' (snd kv)) (go r)
            end) kvs)
  end.
End ValueInd.

(** *** Unescaping ([unescapeStringBestEffort]) *)

Definition hex_val (c : ascii) : option N :=
  let n := byte_of c in
  if (48 <=? n)%N && (n <=? 57)%N then Some (n - 48)%N
  else if (97 <=? n)%N && (n <=? 102)%N then Some (n - 87)%N
  else if (65 <=? n)%N && (n <=? 70)%N then Some (n - 55)%N
  else None.

(** [strconv.ParseUint(xs, 16, 16)] on the first four bytes of [s]. *)
Definition parse_hex4 (s : string) : option N :=
  match s with
  | String a (String b (String c (String d _))) =>
      match hex_val a, hex_val b, hex_val c, hex_val d with
      | Some x, Some y, Some z, Some w => Some (x * 4096 + y * 256 + z * 16 + w)%N
      | _, _, _, _ => None
      end
  | _ => None
  end.

(** [string(rune(r))]: the UTF-8 encoding of a code point. *)
Definition utf8 (r : N) : string :=
  if (r <? 128)%N then String (char_of r) ""
  else if (r <? 2048)%N then
    String (char_of (192 + r / 64)) (String (char_of (128 + r mod 64)) "")
  else if (r <? 65536)%N then
    String (char_of (224 + r / 4096))
      (String (char_of (128 + (r / 64) mod 64))
         (String (char_of (128 + r mod 64)) ""))
  else
    String (char_of (240 + r / 262144))
      (String (char_of (128 + (r / 4096) mod 64))
         (String (char_of (128 + (r / 64) mod 64))
            (String (char_of (128 + r mod 64)) ""))).

Definition is_surrogate (x : N) : bool := (55296 <=? x)%N && (x <? 57344)%N.

(** [utf16.DecodeRune]: the replacement character on an ill-formed pair. *)
Definition decode_rune (x x1 : N) : N :=
  if (55296 <=? x)%N && (x <? 56320)%N && (56320 <=? x1)%N && (x1 <? 57344)%N
  then ((x - 55296) * 1024 + (x1 - 56320) + 65536)%N
  else 65533%N.

(** The loop of [unescapeStringBestEffort]; [fuel] bounds the number of
    bytes still to be read. *)
Fixpoint unescape_loop (fuel : nat) (s : string) : string :=
  match fuel with
  | O => s
  | S f =>
      match s with
      | EmptyString => ""
      | String c rest =>
          if Ascii.eqb c "\"%char then
            match rest with
            | EmptyString => ""
            | String ch s' =>
                if Ascii.eqb ch quote then String quote (unescape_loop f s')
                else if Ascii.eqb ch "\"%char then String "\"%char (unescape_loop f s')
                else if Ascii.eqb ch "/"%char then String "/"%char (unescape_loop f s')
                else if Ascii.eqb ch "b"%char then String (char_of 8) (unescape_loop f s')
                else if Ascii.eqb ch "f"%char then String (char_of 12) (unescape_loop f s')
                else if Ascii.eqb ch "n"%char then String (char_of 10) (unescape_loop f s')
                else if Ascii.eqb ch "r"%char then String (char_of 13) (unescape_loop f s')
                else if Ascii.eqb ch "t"%char then String (char_of 9) (unescape_loop f s')
                else if Ascii.eqb ch "u"%char then
                  match parse_hex4 s' with
                  | None => "\u" +:+ unescape_loop f s'
                  | Some x =>
                      let s4 := drop_bytes 4 s' in
                      if negb (is_surrogate x) then utf8 x +:+ unescape_loop f s4
                      else
                        match s4 with
                        | String b0 (String b1 s6) =>
                            if Ascii.eqb b0 "\"%char && Ascii.eqb b1 "u"%char
                               && (4 <=? String.length s6)%nat then
                              match parse_hex4 s6 with
                              | Some x1 =>
                                  utf8 (decode_rune x x1) +:+ unescape_loop f (drop_bytes 4 s6)
                              | None => "\u" +:+ take_bytes 4 s' +:+ unescape_loop f s4
                              end
                            else "\u" +:+ take_bytes 4 s' +:+ unescape_loop f s4
                        | _ => "\u" +:+ take_bytes 4 s' +:+ unescape_loop f s4
                        end
                  end
                else String "\"%char (String ch (unescape_loop f s'))
            end
          else String c (unescape_loop f rest)
      end
  end.

Definition unescapeStringBestEffort (s : string) : string :=
  if contains_byte "\"%char s then unescape_loop (String.length s) s else s.

(** *** Integers *)

Fixpoint digits_val (acc : Z) (s : string) : option Z :=
  match s with
  | EmptyString => Some acc
  | String c r => if is_digit c then digits_val (acc * 10 + digit_val c) r else None
  end.

(** [strconv.Atoi]: an optional sign, then at least one digit, within [int]. *)
Definition Atoi (s : string) : option Z :=
  let signed (neg : bool) (ds : string) :=
    match ds with
    | EmptyString => None
    | _ =>
        match digits_val 0 ds with
        | Some n => let z := if neg then - n else n in
                    if in_int z then Some z else None
        | None => None
        end
    end in
  match s with
  | String c r =>
      if Ascii.eqb c "-"%char then signed true r
      else if Ascii.eqb c "+"%char then signed false r
      else signed false s
  | EmptyString => None
  end.

(** [fastfloat.ParseInt64BestEffort]: 0 on anything but a decimal integer
    that fits 64 bits. *)
Definition ParseInt64BestEffort (s : string) : Z :=
  let unsigned (neg : bool) (ds : string) :=
    match ds with
    | EmptyString => 0
    | _ =>
        match digits_val 0 ds with
        | Some n => let z := if neg then - n else n in
                    if in_int z then z else 0
        | None => 0
        end
    end in
  match s with
  | String c r => if Ascii.eqb c "-"%char then unsigned true r else unsigned false s
  | EmptyString => 0
  end.

(** *** Object members *)

Definition Members := list (string * Value).

(** The first member whose name, seen through [f], is [key]. *)
Fixpoint lookup_by (f : string -> string) (key : string) (kvs : Members) : option Value :=
  match kvs with
  | [] => None
  | (k, v) :: r => if String.eqb (f k) key then Some v else lookup_by f key r
  end.

Fixpoint remove_by (f : string -> string) (key : string) (kvs : Members) : Members :=
  match kvs with
  | [] => []
  | (k, v) :: r => if String.eqb (f k) key then r else (k, v) :: remove_by f key r
  end.

(** [Object.Get]: the names are first compared as they are spelled; when
    none matches, they are unescaped and compared again. *)
Definition Object_Get (kvs : Members) (key : string) : option Value :=
  if contains_byte "\"%char key then lookup_by unescapeStringBestEffort key kvs
  else
    match lookup_by id key kvs with
    | Some v => Some v
    | None => lookup_by unescapeStringBestEffort key kvs
    end.

(** [Object.Del]: removes the member [Object.Get] would return. *)
Definition Object_Del (kvs : Members) (key : string) : Members :=
  if contains_byte "\"%char key then remove_by unescapeStringBestEffort key kvs
  else
    match lookup_by id key kvs with
    | Some _ => remove_by id key kvs
    | None => remove_by unescapeStringBestEffort key kvs
    end.

(** *** Value accessors.  A nil [*Value] is [None]. *)

Definition get1 (v : Value) (key : string) : option Value :=
  match v with
  | VObject kvs => Object_Get kvs key
  | VArray a =>
      match Atoi key with
      | Some n => if (n <? 0) || (Z.of_nat (length a) <=? n) then None
                  else nth_error a (Z.to_nat n)
      | None => None
      end
  | _ => None
  end.

(** [v.Get(keys...)] *)
Fixpoint Get (v : option Value) (keys : list string) : option Value :=
  match v with
  | None => None
  | Some w =>
      match keys with
      | [] => Some w
      | key :: r => Get (get1 w key) r
      end
  end.

(** [v.Exists(keys...)] *)
Definition Exists (v : option Value) (keys : list string) : bool :=
  match Get v keys with Some _ => true | None => false end.

(** [v.GetArray(keys...)]: a nil slice is the empty list. *)
Definition GetArray (v : option Value) (keys : list string) : list Value :=
  match Get v keys with
  | Some (VArray a) => a
  | _ => []
  end.

(** [v.GetStringBytes(keys...)]: [None] is the nil slice. *)
Definition GetStringBytes (v : option Value) (keys : list string) : option string :=
  match Get v keys with
  | Some (VString raw) => Some (unescapeStringBestEffort raw)
  | _ => None
  end.

(** [v.GetInt(keys...)] *)
Definition GetInt (v : option Value) (keys : list string) : Z :=
  match Get v keys with
  | Some (VNumber s) => ParseInt64BestEffort s
  | _ => 0
  end.

(** [v.Del(key)] *)
Definition Del (v : Value) (key : string) : Value :=
  match v with
  | VObject kvs => VObject (Object_Del kvs key)
  | VArray a =>
      match Atoi key with
      | Some n => if (n <? 0) || (Z.of_nat (length a) <=? n) then v
                  else VArray (firstn (Z.to_nat n) a ++ skipn (S (Z.to_nat n)) a)
      | None => v
      end
  | _ => v
  end.

(** *** Serialisation ([MarshalTo]) *)

Fixpoint MarshalTo (v : Value) : string :=
  match v with
  | VNull => "null"
  | VTrue => "true"
  | VFalse => "false"
  | VNumber s => s
  | VString raw => String quote (raw +:+ String quote "")
  | VArray a =>
      "[" +:+
      (fix items (l : list Value) : string :=
         match l with
         | [] => ""
         | [x] => MarshalTo x
         | x :: r => MarshalTo x +:+ "," +:+ items r
         end) a +:+ "]"
  | VObject kvs =>
      "{" +:+
      (fix members (l : Members) : string :=
         match l with
         | [] => ""
         | [(k, x)] => String quote (k +:+ String quote "") +:+ ":" +:+ MarshalTo x
         | (k, x) :: r =>
             String quote (k +:+ String quote "") +:+ ":" +:+ MarshalTo x +:+ "," +:+ members r
         end) kvs +:+ "}"
  end.

(** The two local loops of [MarshalTo], named. *)
Definition marshal_items : list Value -> string :=
  fix items (l : list Value) : string :=
    match l with
    | [] => ""
    | [x] => MarshalTo x
    | x :: r => MarshalTo x +:+ "," +:+ items r
    end.

Definition marshal_members : Members -> string :=
  fix members (l : Members) : string :=
    match l with
    | [] => ""
    | [(k, x)] => String quote (k +:+ String quote "") +:+ ":" +:+ MarshalTo x
    | (k, x) :: r =>
        String quote (k +:+ String quote "") +:+ ":" +:+ MarshalTo x +:+ "," +:+ members r
    end.

(** *** Parsing ([Parser.ParseBytes])

    The parser follows fastjson's [parseValue], [parseArray] and
    [parseObject].  The non-standard spellings of infinities and NaN that
    fastjson also reads as numbers are left out: here they are parse
    errors. *)

Definition MaxDepth : nat := 300.

Definition is_ws (c : ascii) : bool :=
  let n := byte_of c in
  (n =? 32)%N || (n =? 10)%N || (n =? 9)%N || (n =? 13)%N.

Fixpoint skipWS (s : string) : string :=
  match s with
  | String c r => if is_ws c then skipWS r else s
  | EmptyString => s
  end.

(** The bytes [parseRawNumber] accepts inside a number. *)
Definition is_number_char (c : ascii) : bool :=
  is_digit c || Ascii.eqb c "."%char || Ascii.eqb c "-"%char
  || Ascii.eqb c "e"%char || Ascii.eqb c "E"%char || Ascii.eqb c "+"%char.

Fixpoint span_number (s : string) : string * string :=
  match s with
  | String c r =>
      if is_number_char c then
        let '(n, t) := span_number r in (String c n, t)
      else ("", s)
  | EmptyString => ("", "")
  end.

Definition parseRawNumber (s : string) : option (string * string) :=
  match span_number s with
  | (EmptyString, _) => None
  | (ns, t) => Some (ns, t)
  end.

(** [parseRawString], also used for member names: the text up to the first
    quote that is not escaped by a backslash, and what follows that quote. *)
Fixpoint parseRawString (s : string) : option (string * string) :=
  match s with
  | EmptyString => None
  | String c r =>
      if Ascii.eqb c quote then Some ("", r)
      else if Ascii.eqb c "\"%char then
        match r with
        | EmptyString => None
        | String d r' =>
            match parseRawString r' with
            | Some (a, t) => Some (String c (String d a), t)
            | None => None
            end
        end
      else
        match parseRawString r with
        | Some (a, t) => Some (String c a, t)
        | None => None
        end
  end.

(** [s] starts with the literal [lit]: what follows it. *)
Fixpoint strip_prefix (lit s : string) : option string :=
  match lit, s with
  | EmptyString, _ => Some s
  | String a l, String b r => if Ascii.eqb a b then strip_prefix l r else None
  | String _ _, EmptyString => None
  end.

(** [fuel] bounds the number of nested calls; [depth] is fastjson's own
    nesting counter. *)
Fixpoint parseValue (fuel depth : nat) (s : string) {struct fuel} : option (Value * string) :=
  match fuel with
  | O => None
  | S f =>
      match s with
      | EmptyString => None
      | String c r =>
          if (MaxDepth <? S depth)%nat then None
          else if Ascii.eqb c "{"%char then
            match skipWS r with
            | EmptyString => None
            | String c1 r1 =>
                if Ascii.eqb c1 "}"%char then Some (VObject [], r1)
                else
                  match parseMembers f (S depth) (String c1 r1) with
                  | Some (kvs, t) => Some (VObject kvs, t)
                  | None => None
                  end
            end
          else if Ascii.eqb c "["%char then
            match skipWS r with
            | EmptyString => None
            | String c1 r1 =>
                if Ascii.eqb c1 "]"%char then Some (VArray [], r1)
                else
                  match parseItems f (S depth) (String c1 r1) with
                  | Some (a, t) => Some (VArray a, t)
                  | None => None
                  end
            end
          else if Ascii.eqb c quote then
            match parseRawString r with
            | Some (ss, t) => Some (VString ss, t)
            | None => None
            end
          else if Ascii.eqb c "t"%char then
            match strip_prefix "true" s with
            | Some t => Some (VTrue, t)
            | None => None
            end
          else if Ascii.eqb c "f"%char then
            match strip_prefix "false" s with
            | Some t => Some (VFalse, t)
            | None => None
            end
          else if Ascii.eqb c "n"%char then
            match strip_prefix "null" s with
            | Some t => Some (VNull, t)
            | None => None
            end
          else
            match parseRawNumber s with
            | Some (ns, t) => Some (VNumber ns, t)
            | None => None
            end
      end
  end

(** The loop of [parseArray], entered on a text that is not a closing
    bracket. *)
with parseItems (fuel depth : nat) (s : string) {struct fuel} : option (list Value * string) :=
  match fuel with
  | O => None
  | S f =>
      match parseValue f depth (skipWS s) with
      | None => None
      | Some (v, s1) =>
          match skipWS s1 with
          | EmptyString => None
          | String c r =>
              if Ascii.eqb c ","%char then
                match parseItems f depth r with
                | Some (a, t) => Some (v :: a, t)
                | None => None
                end
              else if Ascii.eqb c "]"%char then Some ([v], r)
              else None
          end
      end
  end

(** The loop of [parseObject], entered on a text that is not a closing
    brace. *)
with parseMembers (fuel depth : nat) (s : string) {struct fuel} : option (Members * string) :=
  match fuel with
  | O => None
  | S f =>
      match skipWS s with
      | EmptyString => None
      | String q r0 =>
          if negb (Ascii.eqb q quote) then None
          else
            match parseRawString r0 with
            | None => None
            | Some (k, s1) =>
                match skipWS s1 with
                | EmptyString => None
                | String c1 s2 =>
                    if negb (Ascii.eqb c1 ":"%char) then None
                    else
                      match parseValue f depth (skipWS s2) with
                      | None => None
                      | Some (v, s3) =>
                          match skipWS s3 with
                          | EmptyString => None
                          | String c r =>
                              if Ascii.eqb c ","%char then
                                match parseMembers f depth r with
                                | Some (kvs, t) => Some ((k, v) :: kvs, t)
                                | None => None
                                end
                              else if Ascii.eqb c "}"%char then Some ([(k, v)], r)
                              else None
                          end
                      end
                end
            end
      end
  end.

(** [Parser.ParseBytes]: one value, white space around it, nothing else.
    Every nested call of the parser reads at least one byte before the
    next one that does not, so twice the length of the input bounds their
    number. *)
Definition ParseBytes (input : string) : option Value :=
  let s := skipWS input in
  match parseValue (2 * String.length s + 2) 0 s with
  | Some (v, tail) =>
      match skipWS tail with
      | EmptyString => Some v
      | String _ _ => None
      end
  | None => None
  end.

End fastjson.

(* ===================================================================== *)
(** ** text/template: the actions the query template uses *)
(* ===================================================================== *)

Module template.

(** A parsed template: literal text, the value of a field of the data
    ([{{.Name}}]), and a conditional on a field ([{{if .Name}}..{{end}}]). *)
Inductive Node : Type :=
| NText (text : string)
| NField (name : string)
| NIf (name : string) (body : list Node).

Definition Template := list Node.

(** The text up to the first occurrence of the two-byte delimiter, and what
    follows the delimiter. *)
Fixpoint split_at (a b : ascii) (s : string) : option (string * string) :=
  match s with
  | String c r =>
      match r with
      | String d r' =>
          if Ascii.eqb c a && Ascii.eqb d b then Some ("", r')
          else match split_at a b r with
               | Some (x, t) => Some (String c x, t)
               | None => None
               end
      | EmptyString => None
      end
  | EmptyString => None
  end.

Inductive Action : Type :=
| AField (name : string)
| AIf (name : string)
| AEnd.

Definition is_space (c : ascii) : bool := Ascii.eqb c " "%char.

Fixpoint trim_left (s : string) : string :=
  match s with
  | String c r => if is_space c then trim_left r else s
  | EmptyString => s
  end.

Definition field_name (s : string) : option string :=
  match s with
  | String c r =>
      if Ascii.eqb c "."%char && negb (String.eqb r "") && negb (contains_byte " "%char r)
      then Some r else None
  | EmptyString => None
  end.

(** The text between [{{] and [}}]. *)
Definition parse_action (a : string) : option Action :=
  let a := trim_left a in
  if String.eqb a "end" then Some AEnd
  else
    match fastjson.strip_prefix "if " a with
    | Some r => option_map AIf (field_name (trim_left r))
    | None => option_map AField (field_name a)
    end.

(** [Parse]: the nodes up to the end of the text ([inner = false]) or up to
    the [{{end}}] that closes the enclosing conditional ([inner = true]). *)
Fixpoint parse_nodes (fuel : nat) (inner : bool) (s : string) : option (list Node * string) :=
  match fuel with
  | O => None
  | S f =>
      match split_at "{"%char "{"%char s with
      | None => if inner then None
                else Some (match s with EmptyString => [] | _ => [NText s] end, "")
      | Some (text, r) =>
          let pre := match text with EmptyString => [] | _ => [NText text] end in
          match split_at "}"%char "}"%char r with
          | None => None
          | Some (a, r') =>
              match parse_action a with
              | None => None
              | Some AEnd => if inner then Some (pre, r') else None
              | Some (AField n) =>
                  match parse_nodes f inner r' with
                  | Some (ns, t) => Some (pre ++ NField n :: ns, t)
                  | None => None
                  end
              | Some (AIf n) =>
                  match parse_nodes f true r' with
                  | Some (body, r'') =>
                      match parse_nodes f inner r'' with
                      | Some (ns, t) => Some (pre ++ NIf n body :: ns, t)
                      | None => None
                      end
                  | None => None
                  end
              end
          end
      end
  end.

Definition Parse (text : string) : option Template :=
  match parse_nodes (S (String.length text)) false text with
  | Some (ns, _) => Some ns
  | None => None
  end.

(** The value of a field of the data the template is executed on. *)
Inductive FieldValue : Type :=
| FInt (z : Z)
| FString (s : string)
| FOpaque.

(** Truth of a value in [{{if}}]: a non-zero number, a non-empty string, a
    non-nil pointer. *)
Definition truth (v : FieldValue) : bool :=
  match v with
  | FInt z => negb (z =? 0)
  | FString s => negb (String.eqb s "")
  | FOpaque => true
  end.

Definition print (v : FieldValue) : option string :=
  match v with
  | FInt z => Some (string_of_Z z)
  | FString s => Some s
  | FOpaque => None
  end.

(** The output of one node; [None] is an execution error. *)
Fixpoint exec_node (data : string -> option FieldValue) (n : Node) : option string :=
  match n with
  | NText text => Some text
  | NField name => match data name with Some v => print v | None => None end
  | NIf name body =>
      match data name with
      | Some v =>
          if truth v then
            (fix exec_list (l : list Node) : option string :=
               match l with
               | [] => Some ""
               | x :: r =>
                   match exec_node data x, exec_list r with
                   | Some a, Some b => Some (a +:+ b)
                   | _, _ => None
                   end
               end) body
          else Some ""
      | None => None
      end
  end.

(** [Execute] *)
Fixpoint Execute (data : string -> option FieldValue) (t : Template) : option string :=
  match t with
  | [] => Some ""
  | x :: r =>
      match exec_node data x, Execute data r with
      | Some a, Some b => Some (a +:+ b)
      | _, _ => None
      end
  end.

End template.

(* ===================================================================== *)
(** ** osdump.go *)
(* ===================================================================== *)

Import fastjson.

(** Holds the configuration *)
Record Configuration : Type := {
  Base : string;
  User : string;
  Password : string;
  Tls : bool;
  Tls_ca : string;
  Index : string;
  cfg_Size : Z;
  File : string;
  Brotli : bool;
  Quality : Z
}.

(** Holds the dump context.  The client is the transport the model is
    parameterised by, the parser is [fastjson.ParseBytes], the channel is
    part of the state of the running pipeline. *)
Record Context : Type := {
  Size : Z;
  After : string;
  Counter : Z;
  Template : template.Template
}.

(** Line feed "constant" *)
Definition ln : string := Eval cbv in String (char_of 10) "".

Definition LF : string := Eval cbv in String (char_of 10) "".
Definition TAB : string := Eval cbv in String (char_of 9) "".

(** Query template for search_after *)
Definition query_template : string :=
  "{" +:+ LF +:+
  TAB +:+ quoted "size" +:+ ": {{.Size}}," +:+ LF +:+
  TAB +:+ quoted "query" +:+ ": {" +:+ quoted "bool" +:+ ": {" +:+ quoted "must" +:+ ": {"
      +:+ quoted "match_all" +:+ ": {}}}},{{if .After}}" +:+ LF +:+
  TAB +:+ quoted "search_after" +:+ ": [" +:+ quoted "{{.After}}" +:+ "],{{end}}" +:+ LF +:+
  TAB +:+ quoted "sort" +:+ ": [" +:+ LF +:+
  TAB +:+ "  { " +:+ quoted "_id" +:+ ": " +:+ quoted "asc" +:+ " } " +:+ LF +:+
  TAB +:+ "]" +:+ LF +:+
  "}".

(** The ways the process dies ([log.Fatal], [log.Fatalf], [check]). *)
Inductive FatalError : Type :=
| TemplateError
| TransportError
| InvalidStatus (code : Z)
| JSONParseError
| IncorrectResult
| NothingToDump
| OutputFileError.

Inductive Result (A : Type) : Type :=
| Ok (a : A)
| Fatal (e : FatalError).
Arguments Ok {A} a.
Arguments Fatal {A} e.

(** What the network sees of one [http.NewRequest("GET", uri, body)] with
    basic authentication, and what comes back. *)
Record Request : Type := {
  req_uri : string;
  req_body : string;
  req_user : string;
  req_password : string
}.

Inductive Reply : Type :=
| ReplyError
| ReplyStatus (code : Z) (body : string).

Definition Transport := Request -> Reply.

(** The state the sequential code of the tool reads and writes: the dump
    context, and the requests issued so far, oldest first. *)
Record State : Type := {
  ctx : Context;
  requests : list Request
}.

(** Computations that may end the process. *)
Definition M (A : Type) : Type := State -> State * Result A.

Definition ret {A} (a : A) : M A := fun st => (st, Ok a).
Definition fatal {A} (e : FatalError) : M A := fun st => (st, Fatal e).
Definition bind {A B} (m : M A) (k : A -> M B) : M B :=
  fun st =>
    match m st with
    | (st', Ok a) => k a st'
    | (st', Fatal e) => (st', Fatal e)
    end.

Notation "'let*' x ':=' m 'in' k" := (bind m (fun x => k))
  (at level 10, x name, m at level 100, k at level 200).

Definition get_ctx : M Context := fun st => (st, Ok (ctx st)).
Definition set_ctx (c : Context) : M unit :=
  fun st => ({| ctx := c; requests := requests st |}, Ok tt).
Definition send_request (r : Request) : M unit :=
  fun st => ({| ctx := ctx st; requests := requests st ++ [r] |}, Ok tt).

(** Helper for checking errs *)
Definition check {A} (e : FatalError) (o : option A) : M A :=
  match o with
  | Some a => ret a
  | None => fatal e
  end.

(** Builds opensearch query template *)
Definition build_query_template : Result template.Template :=
  match template.Parse query_template with
  | Some t => Ok t
  | None => Fatal TemplateError
  end.

Definition StatusOK : Z := 200.

Section Pipeline.

(** The HTTP client of the context: the server behind it answers a
    request by a reply. *)
Variable Client : Transport.

(** Helper function for opensearch queries *)
Definition http_get (uri : string) (body : string) (config : Configuration) : M string :=
  let req := {| req_uri := uri; req_body := body;
                req_user := User config; req_password := Password config |} in
  let* _ := send_request req in
  match Client req with
  | ReplyError => fatal TransportError
  | ReplyStatus code bodyBytes =>
      (* Anything besides 200 OK is probably fatal *)
      if negb (code =? StatusOK) then fatal (InvalidStatus code)
      else ret bodyBytes
  end.

(** Queries the opensearch for total amount of data *)
Definition query_count_database (config : Configuration) : M Z :=
  let uri := Base config +:+ "/" +:+ Index config +:+ "/_count" in
  let* body := http_get uri "" config in
  let* json := check JSONParseError (ParseBytes body) in
  ret (if Exists (Some json) ["count"] then GetInt (Some json) ["count"] else 0).

(** The fields of the context the template can print. *)
Definition context_data (c : Context) (name : string) : option template.FieldValue :=
  if String.eqb name "Size" then Some (template.FInt (Size c))
  else if String.eqb name "After" then Some (template.FString (After c))
  else if String.eqb name "Counter" then Some (template.FInt (Counter c))
  else if String.eqb name "Client" || String.eqb name "Parser"
          || String.eqb name "Template" || String.eqb name "Tasks"
  then Some template.FOpaque
  else None.

(** Queries the opensearch for one window of data *)
Definition query_search_database (config : Configuration) : M string :=
  let uri := Base config +:+ "/" +:+ Index config +:+ "/_search?request_cache=true" in
  let* c := get_ctx in
  let* buf := check TemplateError (template.Execute (context_data c) (Template c)) in
  http_get uri buf config.

(** The loop of [parse_search_results] over the hits of one window. *)
Fixpoint parse_hits (results : list Value) (c : Context) (result : list string)
  : Context * list string :=
  match results with
  | [] => (c, result)
  | v :: rest =>
      (* Update the search_after *)
      let sort := match GetStringBytes (Some v) ["sort"; "0"] with
                  | Some b => b
                  | None => ""
                  end in
      let c1 := if negb (String.eqb sort "")
                then {| Size := Size c; After := sort; Counter := Counter c;
                        Template := Template c |}
                else c in
      (* Remove sort information *)
      let v1 := if Exists (Some v) ["sort"] then Del v "sort" else v in
      (* Increase query counter *)
      let c2 := {| Size := Size c1; After := After c1;
                   Counter := wrap_int (Counter c1 + 1); Template := Template c1 |} in
      (* Add to results *)
      parse_hits rest c2 (result ++ [MarshalTo v1])
  end.

(** Parse search results for single window *)
Definition parse_search_results (input : string) : M (list string) :=
  let* json := check JSONParseError (ParseBytes input) in
  (* Sanity check *)
  if negb (Exists (Some json) ["hits"]) then fatal IncorrectResult
  else
    let results := GetArray (Get (Get (Some json) ["hits"]) ["hits"]) [] in
    (* If the array is empty, we probably just parsed everything already *)
    if (length results =? 0)%nat then ret []
    else
      let* c := get_ctx in
      let '(c', result) := parse_hits results c [] in
      let* _ := set_ctx c' in
      ret result.

(** One turn of the loop of [producer], up to the sends. *)
Definition producer_fetch (config : Configuration) : M (list string) :=
  let* q := query_search_database config in
  parse_search_results q.

(** Loops the search and sends the results to a channel.  Here the
    channel is the list of the records sent so far; [None] when [fuel]
    turns of the loop were not enough to reach the [break]. *)
Fixpoint producer (fuel : nat) (config : Configuration) (tasks : list string) (st : State)
  : option (State * Result (list string)) :=
  match fuel with
  | O => None
  | S f =>
      match producer_fetch config st with
      | (st', Fatal e) => Some (st', Fatal e)
      | (st', Ok r) =>
          let tasks' := tasks ++ r in
          if (length r =? 0)%nat then Some (st', Ok tasks')
          else producer f config tasks' st'
      end
  end.

End Pipeline.

(* ===================================================================== *)
(** ** The running pipeline: producer, channel, consumer, main *)
(* ===================================================================== *)

(** *** The output side: [bufio.Writer] over the file, brotli over it *)

Definition bufio_size : nat := 4096.

(** [bufio.Writer.Write] on a writer holding [buf] over a file holding
    [file]: the new buffer and the new file. *)
Definition bufio_Write (buf file p : string) : string * string :=
  if (String.length p <=? bufio_size - String.length buf)%nat then (buf +:+ p, file)
  else if (String.length buf =? 0)%nat then
    (* Large write, empty buffer: written directly *)
    ("", file +:+ p)
  else
    let n := (bufio_size - String.length buf)%nat in
    let file1 := file +:+ (buf +:+ take_bytes n p) in
    let p1 := drop_bytes n p in
    if (String.length p1 <=? bufio_size)%nat then (p1, file1)
    else ("", file1 +:+ p1).

(** The writers of [consumer]: the bytes [w] buffers, and the bytes the
    brotli writer was given.  What brotli emits is accounted for when it
    is flushed and closed. *)
Record Sink : Type := {
  buffered : string;
  compressing : string
}.

Section Output.

(** The brotli stream of a whole input at a quality. *)
Variable brotli_encode : Z -> string -> string.

(** [out.Write(p)] *)
Definition out_Write (config : Configuration) (snk : Sink) (file p : string)
  : Sink * string :=
  if Brotli config then
    ({| buffered := buffered snk; compressing := compressing snk +:+ p |}, file)
  else
    let '(b, f) := bufio_Write (buffered snk) file p in
    ({| buffered := b; compressing := compressing snk |}, f).

(** The deferred shutdown of [consumer]: the content of the file once it
    is closed. *)
Definition shutdown (config : Configuration) (snk : Sink) (file : string) : string :=
  if Brotli config then
    let '(b, f) := bufio_Write (buffered snk) file
                     (brotli_encode (Quality config) (compressing snk)) in
    f +:+ b
  else file +:+ buffered snk.

(** What the closed file holds when [stream] went through [out]. *)
Definition encoded (config : Configuration) (stream : string) : string :=
  if Brotli config then brotli_encode (Quality config) stream else stream.

End Output.

(** *** Threads *)

Inductive MainPC : Type :=
| MStart        (* before the count query *)
| MWait         (* goroutines started, at [cwg.Wait()] *)
| MReturned.    (* statistics printed, [main] returned *)

Inductive ProducerPC : Type :=
| PIdle                                (* not started *)
| PLoop                                (* at the top of [for] *)
| PRange (r : list string) (rest : list string)
                                       (* in [for x := range r], [rest] to send *)
| PDone.                               (* [wg.Done()] *)

Inductive ConsumerPC : Type :=
| CIdle                                (* not started *)
| COpen                                (* before [os.OpenFile] *)
| CRange (snk : Sink)                  (* at [for data := range *ctx.Tasks] *)
| CNewline (snk : Sink)                (* between the two writes *)
| CDone.                               (* [wg.Done()] *)

Inductive Thread : Type := TMain | TProducer | TCloser | TConsumer.

Record System : Type := {
  state : State;                       (* the context and the requests issued *)
  fs : gmap string string;             (* the files, by path *)
  tasks : list string;                 (* the content of the channel *)
  closed : bool;                       (* the channel is closed *)
  sent : list string;                  (* every record sent so far, in order *)
  main_pc : MainPC;
  prod_pc : ProducerPC;
  cons_pc : ConsumerPC;
  died : option FatalError             (* the process was ended by a fatal error *)
}.

Definition set_state (s : System) (x : State) : System :=
  {| state := x; fs := fs s; tasks := tasks s; closed := closed s; sent := sent s;
     main_pc := main_pc s; prod_pc := prod_pc s; cons_pc := cons_pc s; died := died s |}.
Definition set_fs (s : System) (x : gmap string string) : System :=
  {| state := state s; fs := x; tasks := tasks s; closed := closed s; sent := sent s;
     main_pc := main_pc s; prod_pc := prod_pc s; cons_pc := cons_pc s; died := died s |}.
Definition set_tasks (s : System) (x : list string) : System :=
  {| state := state s; fs := fs s; tasks := x; closed := closed s; sent := sent s;
     main_pc := main_pc s; prod_pc := prod_pc s; cons_pc := cons_pc s; died := died s |}.
Definition set_closed (s : System) (x : bool) : System :=
  {| state := state s; fs := fs s; tasks := tasks s; closed := x; sent := sent s;
     main_pc := main_pc s; prod_pc := prod_pc s; cons_pc := cons_pc s; died := died s |}.
Definition set_sent (s : System) (x : list string) : System :=
  {| state := state s; fs := fs s; tasks := tasks s; closed := closed s; sent := x;
     main_pc := main_pc s; prod_pc := prod_pc s; cons_pc := cons_pc s; died := died s |}.
Definition set_main (s : System) (x : MainPC) : System :=
  {| state := state s; fs := fs s; tasks := tasks s; closed := closed s; sent := sent s;
     main_pc := x; prod_pc := prod_pc s; cons_pc := cons_pc s; died := died s |}.
Definition set_prod (s : System) (x : ProducerPC) : System :=
  {| state := state s; fs := fs s; tasks := tasks s; closed := closed s; sent := sent s;
     main_pc := main_pc s; prod_pc := x; cons_pc := cons_pc s; died := died s |}.
Definition set_cons (s : System) (x : ConsumerPC) : System :=
  {| state := state s; fs := fs s; tasks := tasks s; closed := closed s; sent := sent s;
     main_pc := main_pc s; prod_pc := prod_pc s; cons_pc := x; died := died s |}.
Definition set_died (s : System) (e : FatalError) : System :=
  {| state := state s; fs := fs s; tasks := tasks s; closed := closed s; sent := sent s;
     main_pc := main_pc s; prod_pc := prod_pc s; cons_pc := cons_pc s; died := Some e |}.

Definition file_of (config : Configuration) (s : System) : string :=
  default "" (fs s !! File config).

Section Run.

Variable Client : Transport.
Variable brotli_encode : Z -> string -> string.
Variable config : Configuration.

(** The capacity of the channel; [main] makes it 100000. *)
Variable capacity : nat.

(** [main] up to the start of the goroutines: the count of documents is
    checked, then producer, closer and consumer are started. *)
Definition main_start (s : System) : System :=
  match query_count_database Client config (state s) with
  | (st', Fatal e) => set_died (set_state s st') e
  | (st', Ok c) =>
      let s1 := set_state s st' in
      if c =? 0 then set_died s1 NothingToDump
      else set_cons (set_prod (set_main s1 MWait) PLoop) COpen
  end.

(** The consumer takes [data] from the channel and writes it. *)
Definition consume (snk : Sink) (data : string) (s : System) : System :=
  let '(snk', f) := out_Write config snk (file_of config s) data in
  set_cons (set_fs s (<[File config := f]> (fs s))) (CNewline snk').

(** [main] has returned: the process is over. *)
Definition exited (s : System) : bool :=
  match main_pc s with
  | MReturned => true
  | _ => false
  end.

(** One step of one thread; [None] when the thread is blocked or has
    ended, or when the process has. *)
Definition step_thread (t : Thread) (s : System) : option System :=
  match died s with
  | Some _ => None
  | None =>
      if exited s then None else
      match t with
      | TMain =>
          match main_pc s with
          | MStart => Some (main_start s)
          | MWait =>
              (* cwg.Wait() *)
              match cons_pc s with
              | CDone => Some (set_main s MReturned)
              | _ => None
              end
          | MReturned => None
          end
      | TProducer =>
          match prod_pc s with
          | PLoop =>
              match producer_fetch Client config (state s) with
              | (st', Fatal e) => Some (set_died (set_state s st') e)
              | (st', Ok r) => Some (set_prod (set_state s st') (PRange r r))
              end
          | PRange r (x :: rest) =>
              (* send of r[x] on the channel *)
              if (capacity =? 0)%nat then
                match cons_pc s, tasks s with
                | CRange snk, [] =>
                    Some (consume snk x
                            (set_prod (set_sent s (sent s ++ [x])) (PRange r rest)))
                | _, _ => None
                end
              else if (length (tasks s) <? capacity)%nat then
                Some (set_prod (set_sent (set_tasks s (tasks s ++ [x])) (sent s ++ [x]))
                        (PRange r rest))
              else None
          | PRange r [] =>
              if (length r =? 0)%nat then Some (set_prod s PDone)
              else Some (set_prod s PLoop)
          | PIdle | PDone => None
          end
      | TCloser =>
          (* pwg.Wait(); close of the channel *)
          match prod_pc s, closed s with
          | PDone, false => Some (set_closed s true)
          | _, _ => None
          end
      | TConsumer =>
          match cons_pc s with
          | COpen =>
              (* os.OpenFile(config.File, os.O_CREATE|os.O_EXCL|os.O_WRONLY, 0644) *)
              match fs s !! File config with
              | Some _ => Some (set_died s OutputFileError)
              | None =>
                  Some (set_cons (set_fs s (<[File config := ""]> (fs s)))
                          (CRange {| buffered := ""; compressing := "" |}))
              end
          | CRange snk =>
              match tasks s with
              | data :: rest => Some (consume snk data (set_tasks s rest))
              | [] =>
                  if closed s then
                    Some (set_cons
                            (set_fs s (<[File config :=
                                          shutdown brotli_encode config snk (file_of config s)]>
                                         (fs s)))
                            CDone)
                  else None
              end
          | CNewline snk =>
              let '(snk', f) := out_Write config snk (file_of config s) ln in
              Some (set_cons (set_fs s (<[File config := f]> (fs s))) (CRange snk'))
          | CIdle | CDone => None
          end
      end
  end.

Definition step (s s' : System) : Prop := exists t, step_thread t s = Some s'.

(** The schedule [sched] run from [s], as far as its threads can move. *)
Fixpoint run (sched : list Thread) (s : System) : System :=
  match sched with
  | [] => s
  | t :: r =>
      match step_thread t s with
      | Some s' => run r s'
      | None => run r s
      end
  end.

End Run.

(** The process as [main] finds it: the context is zero but for the window
    size and the parsed template, no request was issued, the channel is
    empty and open. *)
Definition initial (config : Configuration) (t : template.Template)
  (files : gmap string string) : System :=
  {| state := {| ctx := {| Size := cfg_Size config; After := ""; Counter := 0;
                           Template := t |};
                 requests := [] |};
     fs := files; tasks := []; closed := false; sent := [];
     main_pc := MStart; prod_pc := PIdle; cons_pc := CIdle; died := None |}.

Definition query_nodes : template.Template :=
  match build_query_template with
  | Ok t => t
  | Fatal _ => []
  end.

Definition main_capacity : nat := Z.to_nat 100000.

(* ===================================================================== *)
(** ** A model of the search service, and a small index *)
(* ===================================================================== *)

Module demo.

(** A hit as the service returns it for a sort on the identifier. *)
Definition hit (id : string) : Value :=
  VObject [("_index", VString "graylog_0");
           ("_id", VString id);
           ("_score", VNull);
           ("_source", VObject [("message", VString ("m-" +:+ id))]);
           ("sort", VArray [VString id])].

Definition error_body (reason status : string) : string :=
  MarshalTo (VObject [("error", VString reason); ("status", VNumber status)]).

(** A reply whose "hits" holds a total but no array of hits. *)
Definition odd_reply : Value :=
  VObject [("took", VNumber "1"); ("hits", VObject [("total", VNumber "0")])].

Definition hit_id (h : Value) : string :=
  match GetStringBytes (Some h) ["_id"] with
  | Some b => b
  | None => ""
  end.

(** The service over an index whose hits are given in ascending order of
    identifier: a count endpoint, and a search endpoint that reads the
    window size and the cursor from the query document and returns the
    first hits whose identifier is greater than the cursor. *)
Definition service (config : Configuration) (index : list Value) (req : Request) : Reply :=
  if String.eqb (req_uri req) (Base config +:+ "/" +:+ Index config +:+ "/_count") then
    ReplyStatus 200
      (MarshalTo (VObject [("count", VNumber (string_of_Z (Z.of_nat (length index))));
                           ("_shards", VObject [("total", VNumber "1");
                                                ("successful", VNumber "1");
                                                ("failed", VNumber "0")])]))
  else if String.eqb (req_uri req)
            (Base config +:+ "/" +:+ Index config +:+ "/_search?request_cache=true") then
    match ParseBytes (req_body req) with
    | Some q =>
        let size := GetInt (Some q) ["size"] in
        let c := match GetStringBytes (Some q) ["search_after"; "0"] with
                 | Some b => b
                 | None => ""
                 end in
        let found := filter (fun h => String.ltb c (hit_id h)) index in
        ReplyStatus 200
          (MarshalTo
             (VObject [("took", VNumber "1");
                       ("timed_out", VFalse);
                       ("hits",
                        VObject [("total",
                                  VObject [("value",
                                            VNumber (string_of_Z (Z.of_nat (length index))));
                                           ("relation", VString "eq")]);
                                 ("max_score", VNull);
                                 ("hits", VArray (firstn (Z.to_nat size) found))])]))
    | None => ReplyStatus 400 (error_body "parsing_exception" "400")
    end
  else ReplyStatus 404 (error_body "no handler" "404").

(** The configuration the flags give by default, with a window of two. *)
Definition config : Configuration :=
  {| Base := "https://localhost:9200"; User := "graylog"; Password := "password";
     Tls := true; Tls_ca := "ca.pem"; Index := "graylog_0"; cfg_Size := 2;
     File := "graylog_0.json"; Brotli := false; Quality := 2 |}.

(** Five documents, [a] to [e]. *)
Definition hits : list Value := map hit ["a"; "b"; "c"; "d"; "e"].

Definition client : Transport := service config hits.

(** A service without documents, one that fails every request, one whose
    search replies carry no array of hits. *)
Definition empty_client : Transport := service config [].

Definition failing_client : Transport :=
  fun _ => ReplyStatus 500 (error_body "internal" "500").

Definition odd_client : Transport :=
  fun _ => ReplyStatus 200 (MarshalTo odd_reply).

(** No compression in these runs. *)
Definition no_brotli (quality : Z) (stream : string) : string := stream.

(** The process once [main] has started the goroutines against [client]. *)
Definition started : System :=
  run client no_brotli config main_capacity [TMain] (initial config query_nodes ∅).

(** A schedule that lets producer and consumer alternate, then closes the
    channel and lets the consumer and main finish. *)
Definition schedule : list Thread :=
  [TMain; TConsumer]
  ++ concat (repeat [TProducer; TProducer; TConsumer; TConsumer;
                     TProducer; TConsumer; TConsumer; TProducer] 5)
  ++ [TCloser; TConsumer; TMain].

End demo.

(* ===================================================================== *)
(** ** Properties: the hits of one window *)
(* ===================================================================== *)

(** [string(v.GetStringBytes("sort", "0"))]: the cursor a hit carries, the
    empty string when it carries none. *)
Definition sort_text (v : Value) : string :=
  match GetStringBytes (Some v) ["sort"; "0"] with
  | Some b => b
  | None => ""
  end.

(** The payload of a hit: its first "sort" member removed. *)
Definition strip_sort (v : Value) : Value :=
  if Exists (Some v) ["sort"] then Del v "sort" else v.

Definition with_cursor (c : Context) (a : string) : Context :=
  {| Size := Size c; After := a; Counter := Counter c; Template := Template c |}.

Definition count_hit (c : Context) : Context :=
  {| Size := Size c; After := After c; Counter := wrap_int (Counter c + 1);
     Template := Template c |}.

(** The context after one hit. *)
Definition advance (c : Context) (v : Value) : Context :=
  count_hit (if negb (String.eqb (sort_text v) "") then with_cursor c (sort_text v) else c).

(** The cursor after a sequence of cursor texts: the last one that is not
    empty, the cursor before them when there is none. *)
Definition last_cursor (a : string) (texts : list string) : string :=
  fold_left (fun a t => if String.eqb t "" then a else t) texts a.

Lemma parse_hits_cons v rest c acc :
  parse_hits (v :: rest) c acc = parse_hits rest (advance c v) (acc ++ [MarshalTo (strip_sort v)]).
Proof. reflexivity. Qed.

Lemma advance_After c v :
  After (advance c v) = if String.eqb (sort_text v) "" then After c else sort_text v.
Proof. unfold advance. destruct (String.eqb (sort_text v) ""); reflexivity. Qed.

Lemma advance_Counter c v : Counter (advance c v) = wrap_int (Counter c + 1).
Proof. unfold advance. destruct (String.eqb (sort_text v) ""); reflexivity. Qed.

Lemma advance_Size c v : Size (advance c v) = Size c.
Proof. unfold advance. destruct (String.eqb (sort_text v) ""); reflexivity. Qed.

Lemma advance_Template c v : Template (advance c v) = Template c.
Proof. unfold advance. destruct (String.eqb (sort_text v) ""); reflexivity. Qed.

Lemma parse_hits_spec results : forall c acc,
  parse_hits results c acc =
    (fold_left advance results c, acc ++ map (fun v => MarshalTo (strip_sort v)) results).
Proof.
  induction results as [|v rest IH]; intros c acc.
  - simpl. now rewrite app_nil_r.
  - rewrite parse_hits_cons, IH. simpl. now rewrite <- app_assoc.
Qed.

Lemma fold_advance_After results : forall c,
  After (fold_left advance results c) = last_cursor (After c) (map sort_text results).
Proof.
  induction results as [|v rest IH]; intros c; [reflexivity|].
  simpl. rewrite IH, advance_After. reflexivity.
Qed.

Lemma fold_advance_Counter results : forall c,
  Counter (fold_left advance results c) =
    Nat.iter (length results) (fun z => wrap_int (z + 1)) (Counter c).
Proof.
  induction results as [|v rest IH]; intros c; [reflexivity|].
  cbn [fold_left length]. rewrite IH, advance_Counter.
  now rewrite Nat.iter_succ_r.
Qed.

Lemma fold_advance_Size results : forall c, Size (fold_left advance results c) = Size c.
Proof.
  induction results as [|v rest IH]; intros c; [reflexivity|].
  simpl. now rewrite IH, advance_Size.
Qed.

Lemma fold_advance_Template results : forall c,
  Template (fold_left advance results c) = Template c.
Proof.
  induction results as [|v rest IH]; intros c; [reflexivity|].
  simpl. now rewrite IH, advance_Template.
Qed.

Lemma last_cursor_nonempty texts : forall a, a <> "" -> last_cursor a texts <> "".
Proof.
  induction texts as [|t r IH]; intros a Ha; [exact Ha|].
  simpl. destruct (String.eqb_spec t ""); apply IH; assumption.
Qed.

(** Counting without overflow. *)
Lemma wrap_int_small z : int_min <= z <= int_max -> wrap_int z = z.
Proof.
  unfold wrap_int, int_min, int_max. intros H.
  rewrite Z.mod_small; lia.
Qed.

Lemma count_up n : forall z,
  0 <= z -> z + Z.of_nat n <= int_max ->
  Nat.iter n (fun z => wrap_int (z + 1)) z = z + Z.of_nat n.
Proof.
  induction n as [|n IH]; intros z Hz Hn.
  - simpl. lia.
  - rewrite Nat.iter_succ_r, wrap_int_small by (unfold int_min, int_max in *; lia).
    rewrite IH by lia. lia.
Qed.

Lemma Get_None keys : Get None keys = None.
Proof. destruct keys; reflexivity. Qed.

Lemma Get_cons v key keys : Get (Some v) (key :: keys) = Get (get1 v key) keys.
Proof. reflexivity. Qed.

Lemma Get_app keys1 : forall v keys2, Get (Get v keys1) keys2 = Get v (keys1 ++ keys2).
Proof.
  induction keys1 as [|k r IH]; intros [w|] keys2.
  - reflexivity.
  - reflexivity.
  - change (Get (Get (get1 w k) r) keys2 = Get (get1 w k) (r ++ keys2)). apply IH.
  - cbn [Get app]. now rewrite Get_None.
Qed.

Lemma Exists_prefix v key keys x :
  Get (Some v) (key :: keys) = Some x -> Exists (Some v) [key] = true.
Proof.
  unfold Exists. rewrite !Get_cons. destruct (get1 v key) as [w|]; [reflexivity|].
  now rewrite Get_None.
Qed.

Lemma sort_text_absent v : Exists (Some v) ["sort"] = false -> sort_text v = "".
Proof.
  unfold Exists, sort_text, GetStringBytes. rewrite !Get_cons.
  destruct (get1 v "sort") as [w|]; [discriminate|]. now rewrite Get_None.
Qed.

Lemma sort_text_not_string v x :
  Get (Some v) ["sort"; "0"] = Some x ->
  (forall raw, x = VString raw -> unescapeStringBestEffort raw = "") ->
  sort_text v = "".
Proof.
  intros Hx Hraw. unfold sort_text, GetStringBytes. rewrite Hx.
  destruct x; try reflexivity. now apply Hraw.
Qed.

(** The claim that the cursor is replaced whenever a hit has a sort
    annotation: the cursor after the hit would then not depend on the
    cursor before it. *)
Definition cursor_replaced_whenever_sort_present : Prop :=
  forall (v : Value) (c1 c2 : Context),
    Exists (Some v) ["sort"] = true ->
    After (fst (parse_hits [v] c1 [])) = After (fst (parse_hits [v] c2 [])).

(** C5, as stated, fails: a hit whose sort annotation is present but holds
    a number leaves the cursor as it was, so two runs that reach this hit
    with different cursors keep their different cursors. *)
Lemma sort_present_cursor_not_replaced : ~ cursor_replaced_whenever_sort_present.
Proof.
  intros H.
  specialize (H (VObject [("_id", VString "a"); ("sort", VArray [VNumber "7"])])
                {| Size := 2; After := "a"; Counter := 0; Template := [] |}
                {| Size := 2; After := "b"; Counter := 0; Template := [] |}
                eq_refl).
  vm_compute in H. discriminate H.
Qed.

(** C5, amended: the hits are processed in array order; every hit is
    emitted (its payload without the sort member) and counted; the cursor
    after the window is the cursor text of the last hit whose sort
    annotation starts with a non-empty string, and the cursor before the
    window when there is no such hit; a cursor that is set is never reset
    to the empty one. *)
Theorem parse_hits_cursor (results : list Value) (c : Context) (acc : list string) :
  snd (parse_hits results c acc) = acc ++ map (fun v => MarshalTo (strip_sort v)) results
  /\ After (fst (parse_hits results c acc)) = last_cursor (After c) (map sort_text results)
  /\ Counter (fst (parse_hits results c acc)) =
       Nat.iter (length results) (fun z => wrap_int (z + 1)) (Counter c)
  /\ (After c <> "" -> After (fst (parse_hits results c acc)) <> "").
Proof.
  rewrite parse_hits_spec. cbn [fst snd].
  rewrite fold_advance_After, fold_advance_Counter.
  repeat split. apply last_cursor_nonempty.
Qed.



(* ===================================================================== *)
(** ** Properties: requests and replies *)
(* ===================================================================== *)

(** The state once one more request was issued. *)
Definition issue (st : State) (req : Request) : State :=
  {| ctx := ctx st; requests := requests st ++ [req] |}.

Definition count_request (config : Configuration) : Request :=
  {| req_uri := Base config +:+ "/" +:+ Index config +:+ "/_count";
     req_body := "";
     req_user := User config; req_password := Password config |}.

Definition search_request (config : Configuration) (body : string) : Request :=
  {| req_uri := Base config +:+ "/" +:+ Index config +:+ "/_search?request_cache=true";
     req_body := body;
     req_user := User config; req_password := Password config |}.

(** The query document, in the words of the protocol: the window size, the
    match-all query, the resume clause when there is a cursor, the sort on
    the identifier. *)
Definition search_after_clause (cursor : string) : string :=
  if String.eqb cursor "" then ""
  else LF +:+ TAB +:+ quoted "search_after" +:+ ": [" +:+ quoted cursor +:+ "],".

Definition query_document (window : Z) (cursor : string) : string :=
  "{" +:+ LF +:+
  TAB +:+ quoted "size" +:+ ": " +:+ string_of_Z window +:+ "," +:+ LF +:+
  TAB +:+ quoted "query" +:+ ": {" +:+ quoted "bool" +:+ ": {" +:+ quoted "must" +:+ ": {"
      +:+ quoted "match_all" +:+ ": {}}}}," +:+
  search_after_clause cursor +:+ LF +:+
  TAB +:+ quoted "sort" +:+ ": [" +:+ LF +:+
  TAB +:+ "  { " +:+ quoted "_id" +:+ ": " +:+ quoted "asc" +:+ " } " +:+ LF +:+
  TAB +:+ "]" +:+ LF +:+
  "}".

Lemma append_assoc (a b c : string) : (a +:+ b) +:+ c = a +:+ (b +:+ c).
Proof. induction a as [|x a IH]; [reflexivity|]. cbn [String.append String.length]. now rewrite IH. Qed.

Lemma append_nil_r (a : string) : a +:+ "" = a.
Proof. induction a as [|x a IH]; [reflexivity|]. cbn [String.append String.length]. now rewrite IH. Qed.

Lemma length_append (a b : string) :
  String.length (a +:+ b) = (String.length a + String.length b)%nat.
Proof. induction a as [|x a IH]; [reflexivity|]. cbn [String.append String.length]. now rewrite IH. Qed.

Lemma query_nodes_eq :
  query_nodes =
    [template.NText ("{" +:+ LF +:+ TAB +:+ quoted "size" +:+ ": ");
     template.NField "Size";
     template.NText ("," +:+ LF +:+ TAB +:+ quoted "query" +:+ ": {" +:+ quoted "bool"
                     +:+ ": {" +:+ quoted "must" +:+ ": {" +:+ quoted "match_all"
                     +:+ ": {}}}},");
     template.NIf "After"
       [template.NText (LF +:+ TAB +:+ quoted "search_after" +:+ ": [" +:+ String quote "");
        template.NField "After";
        template.NText (String quote "],")];
     template.NText (LF +:+ TAB +:+ quoted "sort" +:+ ": [" +:+ LF +:+
                     TAB +:+ "  { " +:+ quoted "_id" +:+ ": " +:+ quoted "asc" +:+ " } "
                     +:+ LF +:+ TAB +:+ "]" +:+ LF +:+ "}")].
Proof. vm_compute. reflexivity. Qed.

Lemma build_query_template_ok : build_query_template = Ok query_nodes.
Proof. vm_compute. reflexivity. Qed.

Lemma Execute_query (c : Context) :
  template.Execute (context_data c) query_nodes = Some (query_document (Size c) (After c)).
Proof.
  rewrite query_nodes_eq. unfold query_document, search_after_clause, quoted, LF, TAB, quote.
  cbn [template.Execute template.exec_node].
  change (context_data c "Size") with (Some (template.FInt (Size c))).
  change (context_data c "After") with (Some (template.FString (After c))).
  cbn [template.print template.truth].
  destruct (String.eqb (After c) ""); cbn [negb];
    repeat (rewrite ?append_assoc, ?append_nil_r; cbn [String.append]); reflexivity.
Qed.

Section Replies.

Variable Client : Transport.
Variable config : Configuration.

Lemma http_get_unfold uri body st :
  http_get Client uri body config st =
    let req := {| req_uri := uri; req_body := body;
                  req_user := User config; req_password := Password config |} in
    (issue st req,
     match Client req with
     | ReplyError => Fatal TransportError
     | ReplyStatus code bodyBytes =>
         if code =? StatusOK then Ok bodyBytes else Fatal (InvalidStatus code)
     end).
Proof.
  unfold http_get, bind, send_request, issue. cbn zeta.
  destruct (Client _) as [|code b]; [reflexivity|].
  destruct (code =? StatusOK); reflexivity.
Qed.

Lemma query_search_database_unfold st body :
  template.Execute (context_data (ctx st)) (Template (ctx st)) = Some body ->
  query_search_database Client config st =
    (issue st (search_request config body),
     match Client (search_request config body) with
     | ReplyError => Fatal TransportError
     | ReplyStatus code bodyBytes =>
         if code =? StatusOK then Ok bodyBytes else Fatal (InvalidStatus code)
     end).
Proof.
  intros H. unfold query_search_database, bind, get_ctx, check. rewrite H.
  unfold ret. now rewrite http_get_unfold.
Qed.

Lemma parse_search_results_unfold input st :
  parse_search_results input st =
    match ParseBytes input with
    | None => (st, Fatal JSONParseError)
    | Some json =>
        if Exists (Some json) ["hits"] then
          match GetArray (Get (Some json) ["hits"; "hits"]) [] with
          | [] => (st, Ok [])
          | results =>
              ({| ctx := fst (parse_hits results (ctx st) []); requests := requests st |},
               Ok (snd (parse_hits results (ctx st) [])))
          end
        else (st, Fatal IncorrectResult)
    end.
Proof.
  unfold parse_search_results, bind, check, ret, fatal.
  destruct (ParseBytes input) as [json|]; [|reflexivity].
  destruct (Exists (Some json) ["hits"]); [|reflexivity]. cbn [negb].
  rewrite (Get_app ["hits"] (Some json) ["hits"]). cbn [app].
  destruct (GetArray _ _) as [|v r]; [reflexivity|].
  cbn [length Nat.eqb]. unfold get_ctx, set_ctx.
  destruct (parse_hits (v :: r) (ctx st) []) as [c' result]. reflexivity.
Qed.

End Replies.

Section ProducerTurn.

Variable Client : Transport.
Variable brotli_encode : Z -> string -> string.
Variable config : Configuration.
Variable capacity : nat.

Lemma producer_fetch_unfold st body :
  template.Execute (context_data (ctx st)) (Template (ctx st)) = Some body ->
  producer_fetch Client config st =
    match Client (search_request config body) with
    | ReplyError => (issue st (search_request config body), Fatal TransportError)
    | ReplyStatus code input =>
        if code =? StatusOK
        then parse_search_results input (issue st (search_request config body))
        else (issue st (search_request config body), Fatal (InvalidStatus code))
    end.
Proof.
  intros H. unfold producer_fetch, bind.
  rewrite (query_search_database_unfold Client config st body H).
  destruct (Client _) as [|code input]; [reflexivity|].
  destruct (code =? StatusOK); reflexivity.
Qed.

(** A live process whose producer is at the top of its loop. *)
Definition producer_ready (s : System) : Prop :=
  died s = None /\ main_pc s = MWait /\ prod_pc s = PLoop.

Lemma step_producer_fatal s st' e :
  producer_ready s ->
  producer_fetch Client config (state s) = (st', Fatal e) ->
  step_thread Client brotli_encode config capacity TProducer s
    = Some (set_died (set_state s st') e).
Proof.
  intros (Hd & Hm & Hp) Hf. unfold step_thread, exited. now rewrite Hd, Hm, Hp, Hf.
Qed.

Lemma step_producer_page s st' r :
  producer_ready s ->
  producer_fetch Client config (state s) = (st', Ok r) ->
  step_thread Client brotli_encode config capacity TProducer s
    = Some (set_prod (set_state s st') (PRange r r)).
Proof.
  intros (Hd & Hm & Hp) Hf. unfold step_thread, exited. now rewrite Hd, Hm, Hp, Hf.
Qed.

Lemma dead_no_step s t :
  died s <> None -> step_thread Client brotli_encode config capacity t s = None.
Proof. unfold step_thread. destruct (died s); [reflexivity|congruence]. Qed.

End ProducerTurn.

(** The replies to a search that C7 is about: a status that is not 200,
    or a body that parses but has no top-level "hits". *)
Definition bad_search_reply (reply : Reply) (e : FatalError) : Prop :=
  match reply with
  | ReplyError => False
  | ReplyStatus code input =>
      (code <> StatusOK /\ e = InvalidStatus code)
      \/ (code = StatusOK /\ e = IncorrectResult /\
          exists json, ParseBytes input = Some json /\ Exists (Some json) ["hits"] = false)
  end.

(** C7: when the reply to a search has a status other than 200, or a body
    without the top-level "hits" field, the turn of the producer ends the
    process with a fatal error: the producer function returns that error
    after this one request, the running process is dead after the
    producer's step, the request was issued once, and no thread moves any
    more (nothing is retried, nothing recovers). *)
Theorem bad_search_reply_is_fatal
  (Client : Transport) (brotli_encode : Z -> string -> string)
  (config : Configuration) (capacity : nat)
  (s : System) (body : string) (e : FatalError) :
  producer_ready s ->
  template.Execute (context_data (ctx (state s))) (Template (ctx (state s))) = Some body ->
  bad_search_reply (Client (search_request config body)) e ->
  let st' := issue (state s) (search_request config body) in
  (forall fuel tasks, producer Client (S fuel) config tasks (state s) = Some (st', Fatal e))
  /\ step_thread Client brotli_encode config capacity TProducer s
       = Some (set_died (set_state s st') e)
  /\ forall t, step_thread Client brotli_encode config capacity t
                 (set_died (set_state s st') e) = None.
Proof.
  intros Hready Hbody Hbad st'.
  assert (Hf : producer_fetch Client config (state s) = (st', Fatal e)).
  { rewrite (producer_fetch_unfold Client config (state s) body Hbody).
    unfold bad_search_reply in Hbad.
    destruct (Client (search_request config body)) as [|code input]; [contradiction|].
    destruct Hbad as [[Hne ->]|(-> & -> & json & Hp & He)].
    - destruct (Z.eqb_spec code StatusOK); [contradiction|reflexivity].
    - cbn [Z.eqb StatusOK Pos.eqb]. rewrite parse_search_results_unfold, Hp, He. reflexivity. }
  split; [|split].
  - intros fuel tasks. cbn [producer]. now rewrite Hf.
  - now apply step_producer_fatal.
  - intros t. apply dead_no_step. discriminate.
Qed.

(** C9: a reply whose top-level "hits" exists but holds no "hits" array
    (absent, or not an array) ends the producer as an empty page does: the
    window parses to no record and no error, the producer returns what it
    had sent, and in the running process the producer goes to its end
    without a fatal error. *)
Theorem missing_hits_array_ends_producer
  (Client : Transport) (brotli_encode : Z -> string -> string)
  (config : Configuration) (capacity : nat)
  (s : System) (body input : string) (json : Value) :
  producer_ready s ->
  template.Execute (context_data (ctx (state s))) (Template (ctx (state s))) = Some body ->
  Client (search_request config body) = ReplyStatus StatusOK input ->
  ParseBytes input = Some json ->
  Exists (Some json) ["hits"] = true ->
  match Get (Some json) ["hits"; "hits"] with Some (VArray _) => False | _ => True end ->
  let st' := issue (state s) (search_request config body) in
  parse_search_results input st' = (st', Ok [])
  /\ (forall input0 json0 st0,
        ParseBytes input0 = Some json0 ->
        Get (Some json0) ["hits"; "hits"] = Some (VArray []) ->
        parse_search_results input0 st0 = (st0, Ok []))
  /\ (forall fuel tasks, producer Client (S fuel) config tasks (state s) = Some (st', Ok tasks))
  /\ run Client brotli_encode config capacity [TProducer; TProducer] s
       = set_prod (set_state s st') PDone.
Proof.
  intros Hready Hbody Hreply Hp He Hnot st'.
  assert (Hempty : GetArray (Get (Some json) ["hits"; "hits"]) [] = []).
  { unfold GetArray. destruct (Get (Some json) ["hits"; "hits"]) as [[]|];
      try reflexivity; contradiction. }
  assert (Hparse : parse_search_results input st' = (st', Ok [])).
  { rewrite parse_search_results_unfold, Hp, He, Hempty. reflexivity. }
  assert (Hf : producer_fetch Client config (state s) = (st', Ok [])).
  { rewrite (producer_fetch_unfold Client config (state s) body Hbody), Hreply.
    exact Hparse. }
  split; [exact Hparse|]. split; [|split].
  - intros input0 json0 st0 Hp0 Hg0.
    rewrite parse_search_results_unfold, Hp0.
    assert (Exists (Some json0) ["hits"] = true) as ->
      by (eapply Exists_prefix; exact Hg0).
    unfold GetArray. now rewrite Hg0.
  - intros fuel tasks. cbn [producer]. rewrite Hf. cbn [length Nat.eqb].
    now rewrite app_nil_r.
  - cbn [run]. rewrite (step_producer_page Client brotli_encode config capacity s st' [] Hready Hf).
    destruct Hready as (Hd & Hm & _).
    unfold step_thread, exited. cbn. rewrite Hd, Hm. reflexivity.
Qed.

(* ===================================================================== *)
(** ** Properties: the running process *)
(* ===================================================================== *)

(** Case analysis of one step: every [match] the step function takes is
    split, impossible branches are closed. *)
Ltac step_inv H :=
  unfold step_thread in H;
  repeat match type of H with
         | context [match ?x with _ => _ end] =>
             let E := fresh "E" in destruct x eqn:E; try discriminate H
         | context [if ?x then _ else _] =>
             let E := fresh "E" in destruct x eqn:E; try discriminate H
         end;
  try (injection H as H).

Section Process.

Variable Client : Transport.
Variable brotli_encode : Z -> string -> string.
Variable config : Configuration.
Variable capacity : nat.
Variable nodes : template.Template.
Variable files : gmap string string.

Abbreviation step1 := (step Client brotli_encode config capacity).
Abbreviation start := (initial config nodes files).

(** The states the process can be in. *)
Definition reachable (s : System) : Prop := rtc step1 start s.

Lemma reachable_ind (P : System -> Prop) :
  P start ->
  (forall y z t, reachable y ->
     step_thread Client brotli_encode config capacity t y = Some z -> P y -> P z) ->
  forall s, reachable s -> P s.
Proof.
  intros H0 Hstep. apply rtc_ind_r; [exact H0|].
  intros y z Hy [t Ht] Py. exact (Hstep y z t Hy Ht Py).
Qed.

Lemma query_count_database_unfold st :
  query_count_database Client config st =
    (issue st (count_request config),
     match Client (count_request config) with
     | ReplyError => Fatal TransportError
     | ReplyStatus code body =>
         if code =? StatusOK then
           match ParseBytes body with
           | Some json =>
               Ok (if Exists (Some json) ["count"] then GetInt (Some json) ["count"] else 0)
           | None => Fatal JSONParseError
           end
         else Fatal (InvalidStatus code)
     end).
Proof.
  unfold query_count_database, bind. rewrite http_get_unfold. cbn zeta.
  change {| req_uri := _; req_body := ""; req_user := _; req_password := _ |}
    with (count_request config).
  destruct (Client (count_request config)) as [|code body]; [reflexivity|].
  destruct (code =? StatusOK); [|reflexivity].
  unfold check. destruct (ParseBytes body); reflexivity.
Qed.

(** What the count endpoint reports, as [query_count_database] reads it. *)
Definition reported_count (json : Value) : Z :=
  if Exists (Some json) ["count"] then GetInt (Some json) ["count"] else 0.

(** C8: when the count endpoint reports zero documents, the first step of
    the process ends it with the fatal error "nothing to dump"; in every
    state the process reaches, the only request issued is the count
    request (no search page is fetched), the producer and the consumer were
    never started, and the files are as they were (no output file is
    created). *)
Theorem zero_count_aborts (body : string) (json : Value) :
  Client (count_request config) = ReplyStatus StatusOK body ->
  ParseBytes body = Some json ->
  reported_count json = 0 ->
  step_thread Client brotli_encode config capacity TMain start
    = Some (set_died (set_state start (issue (state start) (count_request config)))
              NothingToDump)
  /\ forall s, reachable s ->
       fs s = files /\ prod_pc s = PIdle /\ cons_pc s = CIdle /\ main_pc s = MStart
       /\ (s = start
           \/ (died s = Some NothingToDump /\ requests (state s) = [count_request config])).
Proof.
  intros Hreply Hparse Hzero.
  assert (Hmain : main_start Client config start
                  = set_died (set_state start (issue (state start) (count_request config)))
                      NothingToDump).
  { unfold main_start. rewrite query_count_database_unfold, Hreply. cbn [Z.eqb StatusOK Pos.eqb].
    rewrite Hparse. fold (reported_count json). rewrite Hzero. reflexivity. }
  split.
  - unfold step_thread. cbn [died main_pc initial]. now rewrite Hmain.
  - apply reachable_ind.
    + repeat split. now left.
    + intros y z t Hxy Hyz IH. destruct IH as (Hfs & Hp & Hc & Hm & [->|[Hd _]]).
      * destruct t; unfold step_thread in Hyz; cbn in Hyz; try discriminate Hyz.
        injection Hyz as <-. rewrite Hmain. repeat split. right. now split.
      * rewrite dead_no_step in Hyz by congruence. discriminate Hyz.
Qed.

(** C6: when a file already exists at the output path, the consumer never
    gets past its opening of the file: its step there ends the process
    with the output-file error; in every state the process reaches the
    files are what they were (the existing file is untouched), nothing was
    written, and the process never completes. *)
Theorem existing_output_file_is_fatal (content : string) :
  files !! File config = Some content ->
  forall s, reachable s ->
    fs s = files
    /\ main_pc s <> MReturned
    /\ (cons_pc s = CIdle \/ cons_pc s = COpen)
    /\ (cons_pc s = COpen -> died s = None ->
        step_thread Client brotli_encode config capacity TConsumer s
          = Some (set_died s OutputFileError)).
Proof.
  intros Hfile s Hs.
  assert (Hinv : fs s = files /\ main_pc s <> MReturned
                 /\ (cons_pc s = CIdle \/ cons_pc s = COpen)).
  { revert s Hs. apply reachable_ind.
    - cbn. repeat split; [discriminate|now left].
    - intros y z t Hxy Hyz IH. destruct IH as (Hfs & Hm & Hc).
      step_inv Hyz; subst z;
        try solve [destruct Hc; congruence];
        try solve [rewrite Hfs, Hfile in *; congruence];
        try solve [cbn; repeat split; [assumption|congruence|tauto]].
      all: unfold main_start; destruct (query_count_database _ _ _) as [st' [c|e]];
        [destruct (c =? 0)|]; cbn; repeat split; try assumption; try congruence;
        tauto. }
  destruct Hinv as (Hfs & Hm & Hc). repeat split; try assumption.
  intros Hopen Hlive. unfold step_thread, exited. rewrite Hlive, Hopen, Hfs, Hfile.
  destruct (main_pc s); [reflexivity|reflexivity|contradiction].
Qed.

End Process.

(* ===================================================================== *)
(** ** Properties: the output side *)
(* ===================================================================== *)

(** The text of a sequence of records: each one followed by a line feed. *)
Fixpoint lines (records : list string) : string :=
  match records with
  | [] => ""
  | r :: t => r +:+ ln +:+ lines t
  end.

Lemma lines_app a b : lines (a ++ b) = lines a +:+ lines b.
Proof.
  induction a as [|r a IH]; [reflexivity|].
  cbn [app lines]. now rewrite IH, !append_assoc.
Qed.

Lemma take_drop_bytes n : forall s, take_bytes n s +:+ drop_bytes n s = s.
Proof.
  induction n as [|n IH]; intros [|c s]; try reflexivity.
  cbn [take_bytes drop_bytes String.append]. now rewrite IH.
Qed.

Lemma length_zero_empty (s : string) : String.length s = 0%nat -> s = "".
Proof. destruct s; [reflexivity|discriminate]. Qed.

(** Nothing is lost or reordered between the buffer and the file. *)
Lemma bufio_Write_spec buf file p :
  snd (bufio_Write buf file p) +:+ fst (bufio_Write buf file p) = file +:+ buf +:+ p.
Proof.
  unfold bufio_Write.
  destruct (String.length p <=? bufio_size - String.length buf)%nat; [reflexivity|].
  destruct (String.length buf =? 0)%nat eqn:E.
  - apply Nat.eqb_eq, length_zero_empty in E. subst buf. cbn [fst snd String.append].
    now rewrite append_nil_r.
  - destruct (_ <=? bufio_size)%nat; cbn [fst snd];
      rewrite ?append_nil_r, !append_assoc, take_drop_bytes; reflexivity.
Qed.

(** The bytes handed to [out] so far. *)
Definition stream_of (config : Configuration) (snk : Sink) (file : string) : string :=
  if Brotli config then compressing snk else file +:+ buffered snk.

(** Under compression nothing reaches the file before the shutdown. *)
Definition sink_ok (config : Configuration) (snk : Sink) (file : string) : Prop :=
  if Brotli config then file = "" /\ buffered snk = "" else True.

Lemma out_Write_stream config snk file p :
  stream_of config (fst (out_Write config snk file p)) (snd (out_Write config snk file p))
    = stream_of config snk file +:+ p.
Proof.
  unfold out_Write, stream_of. destruct (Brotli config); [reflexivity|].
  pose proof (bufio_Write_spec (buffered snk) file p) as H.
  destruct (bufio_Write (buffered snk) file p) as [b f]. cbn [fst snd buffered] in *.
  now rewrite H, append_assoc.
Qed.

Lemma out_Write_ok config snk file p :
  sink_ok config snk file ->
  sink_ok config (fst (out_Write config snk file p)) (snd (out_Write config snk file p)).
Proof.
  unfold out_Write, sink_ok. destruct (Brotli config); [|trivial].
  cbn [fst snd buffered]. tauto.
Qed.

Lemma shutdown_encoded brotli_encode config snk file :
  sink_ok config snk file ->
  shutdown brotli_encode config snk file
    = encoded brotli_encode config (stream_of config snk file).
Proof.
  unfold shutdown, encoded, stream_of, sink_ok. destruct (Brotli config); [|reflexivity].
  intros [-> ->].
  pose proof (bufio_Write_spec "" "" (brotli_encode (Quality config) (compressing snk))) as H.
  destruct (bufio_Write _ _ _) as [b f]. exact H.
Qed.

Section Order.

Variable Client : Transport.
Variable brotli_encode : Z -> string -> string.
Variable config : Configuration.
Variable capacity : nat.
Variable nodes : template.Template.
Variable files : gmap string string.

Abbreviation start := (initial config nodes files).
Abbreviation step_of := (step_thread Client brotli_encode config capacity).

(** The state in which the producer starts: the count request was issued. *)
Definition producer_start : State := fst (query_count_database Client config (state start)).

(** What the consumer has done with what was sent. *)
Definition cons_inv (s : System) : Prop :=
  match cons_pc s with
  | CIdle | COpen => sent s = tasks s
  | CRange snk =>
      exists recv file,
        sent s = recv ++ tasks s
        /\ fs s !! File config = Some file
        /\ stream_of config snk file = lines recv
        /\ sink_ok config snk file
  | CNewline snk =>
      exists recv x file,
        sent s = recv ++ x :: tasks s
        /\ fs s !! File config = Some file
        /\ stream_of config snk file = lines recv +:+ x
        /\ sink_ok config snk file
  | CDone =>
      tasks s = [] /\ closed s = true
      /\ fs s !! File config = Some (encoded brotli_encode config (lines (sent s)))
  end.

(** Where the producer of the process is, in terms of the function
    [producer] run from [producer_start]. *)
Definition prod_inv (s : System) : Prop :=
  match prod_pc s with
  | PIdle => False
  | PLoop =>
      exists k, forall fuel,
        producer Client (k + fuel) config [] producer_start
          = producer Client fuel config (sent s) (state s)
  | PRange r rest =>
      exists k pre sent0,
        r = pre ++ rest /\ sent s = sent0 ++ pre
        /\ forall fuel,
             producer Client (k + S fuel) config [] producer_start
               = if (length r =? 0)%nat then Some (state s, Ok (sent0 ++ r))
                 else producer Client fuel config (sent0 ++ r) (state s)
  | PDone =>
      exists k, producer Client k config [] producer_start = Some (state s, Ok (sent s))
  end.

Definition pipeline_inv (s : System) : Prop :=
  (main_pc s = MReturned -> died s = None /\ cons_pc s = CDone)
  /\ (died s = None ->
      match main_pc s with
      | MStart => s = start
      | _ => cons_inv s /\ (closed s = true -> prod_pc s = PDone) /\ prod_inv s
      end).

Lemma producer_S fuel tasks0 st :
  producer Client (S fuel) config tasks0 st =
    match producer_fetch Client config st with
    | (st', Fatal e) => Some (st', Fatal e)
    | (st', Ok r) =>
        if (length r =? 0)%nat then Some (st', Ok (tasks0 ++ r))
        else producer Client fuel config (tasks0 ++ r) st'
    end.
Proof. reflexivity. Qed.

Lemma state_main_start s :
  state (main_start Client config s) = fst (query_count_database Client config (state s)).
Proof.
  unfold main_start. destruct (query_count_database _ _ _) as [st' [c|e]];
    [destruct (c =? 0)|]; reflexivity.
Qed.

Lemma consume_fields snk data s :
  let w := out_Write config snk (file_of config s) data in
  consume config snk data s
    = set_cons (set_fs s (<[File config := snd w]> (fs s))) (CNewline (fst w)).
Proof. unfold consume. destruct (out_Write _ _ _ _); reflexivity. Qed.

Lemma file_of_lookup s file : fs s !! File config = Some file -> file_of config s = file.
Proof. unfold file_of. now intros ->. Qed.

Lemma pipeline_inv_start : pipeline_inv start.
Proof. split; [discriminate|reflexivity]. Qed.

(** In a live state past the start of [main], the three parts of the
    invariant. *)
(** Rewriting with what is known of the program counters and the channel. *)
Ltac rew_pc :=
  repeat match goal with
         | H : main_pc ?y = _ |- context [main_pc ?y] => rewrite H
         | H : prod_pc ?y = _ |- context [prod_pc ?y] => rewrite H
         | H : cons_pc ?y = _ |- context [cons_pc ?y] => rewrite H
         | H : tasks ?y = _ |- context [tasks ?y] => rewrite H
         | H : prod_pc ?y = _, H' : context [match prod_pc ?y with _ => _ end] |- _ =>
             rewrite H in H'
         | H : cons_pc ?y = _, H' : context [match cons_pc ?y with _ => _ end] |- _ =>
             rewrite H in H'
         | H : tasks ?y = _, H' : context [tasks ?y] |- _ =>
             lazymatch type of H' with tasks _ = _ => fail | _ => rewrite H in H' end
         end.

Ltac use_len :=
  match goal with H : (length _ =? 0)%nat = _ |- _ => rewrite H end.

Ltac past_start Hlive Hexit :=
  match type of Hlive with
  | match main_pc ?y with _ => _ end =>
      let Em := fresh "Em" in
      destruct (main_pc y) eqn:Em;
      [ subst y; discriminate
      | destruct Hlive as (Hcons & Hclosed & Hprod)
      | discriminate Hexit ]
  end.

Lemma inv_step y z t : pipeline_inv y -> step_of t y = Some z -> pipeline_inv z.
Proof.
  intros [Hret Hlive] Hstep.
  step_inv Hstep; subst z.
  all: specialize (Hlive eq_refl).
  all: unfold exited in *.
  - (* main: the count query *)
    subst y. unfold main_start, pipeline_inv.
    destruct (query_count_database Client config (state start)) as [st' [c|e]] eqn:Eq.
    + destruct (c =? 0); cbn; (split; [discriminate|]); [discriminate|].
      intros _. repeat split; try discriminate.
      exists 0%nat. intros fuel. unfold producer_start. now rewrite Eq.
    + cbn. split; discriminate.
  - (* main: the consumer is done *)
    split; cbn; [now split|]. intros _. exact Hlive.
  - (* producer: a window was fetched *)
    past_start Hlive E0. unfold pipeline_inv, cons_inv, prod_inv in *. cbn.
    rew_pc. split; [discriminate|]. intros _. repeat split.
    + exact Hcons.
    + intros Hc. specialize (Hclosed Hc). discriminate.
    + destruct Hprod as [k Hk]. exists k, [], (sent y). repeat split.
      * now rewrite app_nil_r.
      * intros fuel. rewrite Hk, producer_S, E3. reflexivity.
  - (* producer: the fetch was fatal *)
    split; cbn; [|discriminate]. intros Hm. specialize (Hret Hm).
    destruct (main_pc y); discriminate.
  - (* producer: the last window was empty *)
    past_start Hlive E0. unfold pipeline_inv, cons_inv, prod_inv in *. cbn.
    rew_pc. split; [discriminate|]. intros _. repeat split.
    + exact Hcons.
    + destruct Hprod as (k & pre & sent0 & Hr & Hs & Hk).
      rewrite app_nil_r in Hr. subst pre.
      exists (k + 1)%nat. rewrite (Hk 0%nat). use_len. now rewrite Hs.
  - (* producer: next turn of the loop *)
    past_start Hlive E0. unfold pipeline_inv, cons_inv, prod_inv in *. cbn.
    rew_pc. split; [discriminate|]. intros _. repeat split.
    + exact Hcons.
    + intros Hc. specialize (Hclosed Hc). discriminate.
    + destruct Hprod as (k & pre & sent0 & Hr & Hs & Hk).
      rewrite app_nil_r in Hr. subst pre.
      exists (k + 1)%nat. intros fuel.
      replace (k + 1 + fuel)%nat with (k + S fuel)%nat by lia.
      rewrite Hk. use_len. now rewrite Hs.
  - (* producer: hand-off to the waiting consumer *)
    past_start Hlive E0. rewrite consume_fields. cbn zeta.
    unfold pipeline_inv, cons_inv, prod_inv in *. cbn.
    rew_pc. split; [discriminate|]. intros _.
    destruct Hcons as (recv & file & Hs & Hf & Hst & Hok).
    rewrite app_nil_r in Hs. unfold file_of. cbn. rewrite Hf. cbn.
    repeat split.
    + exists recv, s, (snd (out_Write config snk file s)). repeat split.
      * now rewrite Hs.
      * apply lookup_insert_eq.
      * now rewrite out_Write_stream, Hst.
      * now apply out_Write_ok.
    + intros Hc. specialize (Hclosed Hc). discriminate.
    + destruct Hprod as (k & pre & sent0 & Hr & Hs' & Hk).
      exists k, (pre ++ [s]), sent0. repeat split.
      * now rewrite <- app_assoc.
      * now rewrite Hs', app_assoc.
      * exact Hk.
  - (* producer: send into the buffer *)
    past_start Hlive E0. unfold pipeline_inv, cons_inv, prod_inv in *. cbn.
    rew_pc. split; [discriminate|]. intros _. repeat split.
    + destruct (cons_pc y) eqn:Ec.
      * now rewrite Hcons.
      * now rewrite Hcons.
      * destruct Hcons as (recv & file & Hs & Hf & Hst & Hok).
        exists recv, file. repeat split; try assumption. now rewrite Hs, app_assoc.
      * destruct Hcons as (recv & x & file & Hs & Hf & Hst & Hok).
        exists recv, x, file. repeat split; try assumption.
        now rewrite Hs, <- app_assoc.
      * destruct Hcons as (_ & Hc & _). specialize (Hclosed Hc). discriminate.
    + intros Hc. specialize (Hclosed Hc). discriminate.
    + destruct Hprod as (k & pre & sent0 & Hr & Hs' & Hk).
      exists k, (pre ++ [s]), sent0. repeat split.
      * now rewrite <- app_assoc.
      * now rewrite Hs', app_assoc.
      * exact Hk.
  - (* closer *)
    past_start Hlive E0. unfold pipeline_inv, cons_inv, prod_inv in *. cbn.
    rew_pc. split; [discriminate|]. intros _. repeat split.
    + destruct (cons_pc y); try exact Hcons.
      destruct Hcons as (_ & Hc & _). congruence.
    + exact Hprod.
  - (* consumer: the file exists *)
    split; cbn; [|discriminate]. intros Hm. specialize (Hret Hm).
    destruct Hret. congruence.
  - (* consumer: the file is created *)
    past_start Hlive E0. unfold pipeline_inv, cons_inv, prod_inv in *. cbn.
    rew_pc. split; [discriminate|]. intros _. repeat split.
    + exists [], "". repeat split.
      * exact Hcons.
      * apply lookup_insert_eq.
      * unfold stream_of. now destruct (Brotli config).
      * unfold sink_ok. now destruct (Brotli config).
    + exact Hclosed.
    + exact Hprod.
  - (* consumer: the channel is closed and empty *)
    past_start Hlive E0. unfold pipeline_inv, cons_inv, prod_inv in *. cbn.
    rew_pc. split; [discriminate|]. intros _.
    destruct Hcons as (recv & file & Hs & Hf & Hst & Hok).
    rewrite app_nil_r in Hs. repeat split; try assumption;
      try solve [intros _; now apply Hclosed].
    rewrite (file_of_lookup y file Hf), shutdown_encoded, Hst, Hs by assumption.
    apply lookup_insert_eq.
  - (* consumer: a record is received and written *)
    past_start Hlive E0. rewrite consume_fields. cbn zeta.
    unfold pipeline_inv, cons_inv, prod_inv in *. cbn.
    rew_pc. split; [discriminate|]. intros _.
    destruct Hcons as (recv & file & Hs & Hf & Hst & Hok).
    unfold file_of. cbn. rewrite Hf. cbn.
    repeat split.
    + exists recv, s, (snd (out_Write config snk file s)). repeat split.
      * exact Hs.
      * apply lookup_insert_eq.
      * now rewrite out_Write_stream, Hst.
      * now apply out_Write_ok.
    + exact Hclosed.
    + exact Hprod.
  - (* consumer: the line feed is written *)
    past_start Hlive E0. unfold pipeline_inv, cons_inv, prod_inv in *. cbn.
    rew_pc. split; [discriminate|]. intros _.
    destruct Hcons as (recv & x & file & Hs & Hf & Hst & Hok).
    rewrite (file_of_lookup y file Hf) in E3.
    pose proof (out_Write_stream config snk file ln) as Hw.
    pose proof (out_Write_ok config snk file ln Hok) as Hok'.
    rewrite E3 in Hw, Hok'. cbn [fst snd] in Hw, Hok'.
    repeat split.
    + exists (recv ++ [x]), s0. repeat split.
      * now rewrite Hs, <- app_assoc.
      * apply lookup_insert_eq.
      * rewrite Hw, Hst, lines_app. cbn [lines]. now rewrite append_nil_r, !append_assoc.
      * exact Hok'.
    + exact Hclosed.
    + exact Hprod.
Qed.

Lemma pipeline_inv_reachable s :
  reachable Client brotli_encode config capacity nodes files s -> pipeline_inv s.
Proof.
  revert s. apply reachable_ind; [exact pipeline_inv_start|].
  intros y z t _ Hstep Hy. exact (inv_step y z t Hy Hstep).
Qed.

(** Every schedule leads to a state the process can be in. *)
Lemma run_reachable sched : forall s,
  reachable Client brotli_encode config capacity nodes files s ->
  reachable Client brotli_encode config capacity nodes files
    (run Client brotli_encode config capacity sched s).
Proof.
  induction sched as [|t r IH]; intros s Hs; [exact Hs|].
  cbn [run]. destruct (step_of t s) as [s'|] eqn:E; apply IH; [|exact Hs].
  eapply rtc_r; [exact Hs|]. now exists t.
Qed.

(** C2: whatever the capacity of the channel and whatever the order in
    which producer, closer, consumer and main take_bytes their steps, the
    records reach the output in the order in which the producer sent them:
    while the consumer waits for the next record, the bytes it has written
    are the lines of the records it has received, which are a prefix of the
    records sent, the rest still being in the channel in order; and once
    main has returned, the channel is empty, the file holds (encoded, under
    compression) exactly the lines of all the records sent, and these are
    the records the function [producer] produces on its own. *)
Theorem output_is_what_was_sent (s : System) :
  reachable Client brotli_encode config capacity nodes files s ->
  (forall snk, died s = None -> cons_pc s = CRange snk ->
     exists recv file,
       sent s = recv ++ tasks s
       /\ fs s !! File config = Some file
       /\ stream_of config snk file = lines recv)
  /\ (main_pc s = MReturned ->
      tasks s = []
      /\ fs s !! File config = Some (encoded brotli_encode config (lines (sent s)))
      /\ exists k, producer Client k config [] producer_start = Some (state s, Ok (sent s))).
Proof.
  intros Hs. destruct (pipeline_inv_reachable s Hs) as [Hret Hlive]. split.
  - intros snk Hd Hc. specialize (Hlive Hd).
    destruct (main_pc s); [subst s; discriminate Hc| |];
      destruct Hlive as (Hcons & _); unfold cons_inv in Hcons; rewrite Hc in Hcons;
      destruct Hcons as (recv & file & H1 & H2 & H3 & _); now exists recv, file.
  - intros Hm. destruct (Hret Hm) as [Hd Hc]. specialize (Hlive Hd).
    rewrite Hm in Hlive. destruct Hlive as (Hcons & Hclosed & Hprod).
    unfold cons_inv in Hcons. rewrite Hc in Hcons. destruct Hcons as (Ht & Hcl & Hf).
    unfold prod_inv in Hprod. rewrite (Hclosed Hcl) in Hprod. now repeat split.
Qed.

End Order.

(* ===================================================================== *)
(** ** Properties: paging through an index *)
(* ===================================================================== *)

Lemma Context_eq (c1 c2 : Context) :
  Size c1 = Size c2 -> After c1 = After c2 -> Counter c1 = Counter c2 ->
  Template c1 = Template c2 -> c1 = c2.
Proof. destruct c1, c2. cbn. now intros -> -> -> ->. Qed.

Lemma last_cursor_app a l1 l2 : last_cursor a (l1 ++ l2) = last_cursor (last_cursor a l1) l2.
Proof. apply fold_left_app. Qed.

(** The record the producer sends for a hit. *)
Definition record_of (v : Value) : string := MarshalTo (strip_sort v).

Section Windows.

Variable window : nat.
Hypothesis window_positive : (0 < window)%nat.

(** The successive windows of a sequence of hits. *)
Fixpoint windows (n : nat) (rem : list Value) : list (list Value) :=
  match n, rem with
  | S n', _ :: _ => firstn window rem :: windows n' (skipn window rem)
  | _, _ => []
  end.

Lemma ceil_div_step L :
  (0 < L)%nat ->
  ((L + window - 1) / window = S ((L - window + window - 1) / window))%nat.
Proof.
  intros HL. pose proof window_positive as Hw.
  destruct (Nat.le_gt_cases window L) as [Hle|Hgt].
  - replace (L + window - 1)%nat with ((L - window + window - 1) + 1 * window)%nat by lia.
    rewrite Nat.div_add by lia. lia.
  - replace (L - window + window - 1)%nat with (window - 1)%nat by lia.
    rewrite (Nat.div_small (window - 1)) by lia.
    symmetry. apply (Nat.div_unique _ _ 1 (L - 1)); lia.
Qed.

Lemma windows_length n : forall rem,
  (length rem <= n)%nat ->
  length (windows n rem) = ((length rem + window - 1) / window)%nat.
Proof.
  pose proof window_positive as Hw.
  induction n as [|n IH]; intros [|h t] Hlen; cbn [windows length] in Hlen |- *; try lia.
  - rewrite Nat.div_small; lia.
  - rewrite Nat.div_small; lia.
  - rewrite IH by (rewrite length_skipn; cbn [length]; lia).
    rewrite length_skipn. cbn [length].
    rewrite (ceil_div_step (S (length t))) by lia. reflexivity.
Qed.

Lemma windows_nonempty n : forall rem, Forall (fun p => p <> []) (windows n rem).
Proof.
  pose proof window_positive as Hw.
  induction n as [|n IH]; intros [|h t]; cbn [windows]; try constructor.
  - destruct window; [lia|discriminate].
  - apply IH.
Qed.

Lemma windows_concat n : forall rem,
  (length rem <= n)%nat -> concat (windows n rem) = rem.
Proof.
  pose proof window_positive as Hw.
  induction n as [|n IH]; intros [|h t] Hlen; cbn [windows length concat] in Hlen |- *;
    try reflexivity; try lia.
  rewrite IH by (rewrite length_skipn; cbn [length]; lia).
  apply firstn_skipn.
Qed.

End Windows.

Section Index.

Variable Client : Transport.
Variable config : Configuration.

(** The hits of the index, in the order in which the service sorts them
    (ascending identifier), and the window size. *)
Variable docs : list Value.
Variable window : nat.

(** The hits that follow the one whose cursor text is [c]. *)
Fixpoint hits_after (c : string) (l : list Value) : list Value :=
  match l with
  | [] => []
  | h :: r => if String.eqb (sort_text h) c then r else hits_after c r
  end.

(** The page the service returns for a cursor: the first [window] hits
    after the cursor, from the start of the index when there is none. *)
Definition page (c : string) : list Value :=
  firstn window (if String.eqb c "" then docs else hits_after c docs).

(** The cursors of the successive requests, from cursor [c] with [rem]
    still to fetch. *)
Fixpoint cursor_trail (n : nat) (c : string) (rem : list Value) : list string :=
  c :: match n, rem with
       | S n', _ :: _ =>
           cursor_trail n' (last_cursor c (map sort_text (firstn window rem)))
             (skipn window rem)
       | _, _ => []
       end.

Hypothesis window_positive : (0 < window)%nat.
Hypothesis count_fits : Z.of_nat (length docs) <= int_max.

(** Every hit carries a cursor text, and no two hits carry the same. *)
Hypothesis cursors_present : Forall (fun h => sort_text h <> "") docs.
Hypothesis cursors_distinct : NoDup (map sort_text docs).

(** The service answers the query document for a cursor by a body whose
    hits are the page for this cursor. *)
Hypothesis served : forall c,
  c = "" \/ In c (map sort_text docs) ->
  exists input json,
    Client (search_request config (query_document (Z.of_nat window) c))
      = ReplyStatus StatusOK input
    /\ ParseBytes input = Some json
    /\ Exists (Some json) ["hits"] = true
    /\ GetArray (Get (Some json) ["hits"; "hits"]) [] = page c.

Definition context_at (done : list Value) : Context :=
  {| Size := Z.of_nat window;
     After := last_cursor "" (map sort_text done);
     Counter := Z.of_nat (length done);
     Template := query_nodes |}.

Definition request_for (c : string) : Request :=
  search_request config (query_document (Z.of_nat window) c).

Lemma last_cursor_last a l h :
  sort_text h <> "" -> last_cursor a (map sort_text (l ++ [h])) = sort_text h.
Proof.
  intros Hh. rewrite map_app, last_cursor_app. cbn.
  destruct (String.eqb_spec (sort_text h) ""); [contradiction|reflexivity].
Qed.

Lemma hits_after_skip c d h rem :
  ~ In c (map sort_text d) -> sort_text h = c -> hits_after c (d ++ h :: rem) = rem.
Proof.
  intros Hd Hh. induction d as [|x d IH]; cbn [app hits_after].
  - rewrite Hh, String.eqb_refl. reflexivity.
  - destruct (String.eqb_spec (sort_text x) c) as [Hx|_].
    + exfalso. apply Hd. left. exact Hx.
    + apply IH. intros Hin. apply Hd. right. exact Hin.
Qed.

Lemma list_snoc_cases {A} (l : list A) : l = [] \/ exists l' x, l = l' ++ [x].
Proof.
  induction l as [|a l IH]; [now left|]. right.
  destruct IH as [->|(l' & x & ->)]; [now exists [], a|now exists (a :: l'), x].
Qed.

(** After [done], the cursor of the context is empty or the cursor text of
    a hit, and the page for it starts where [done] ends. *)
Lemma cursor_at done rem :
  docs = done ++ rem ->
  let c := last_cursor "" (map sort_text done) in
  (c = "" \/ In c (map sort_text docs)) /\ page c = firstn window rem.
Proof.
  intros Hdocs c. subst c. destruct (list_snoc_cases done) as [->|(d & h & ->)].
  - cbn. split; [now left|]. unfold page. cbn. now rewrite Hdocs.
  - assert (Hh : sort_text h <> "").
    { apply (proj1 (List.Forall_forall _ _) cursors_present).
      rewrite Hdocs. apply in_or_app. left. apply in_or_app. right. now left. }
    rewrite (last_cursor_last "" d h Hh). split.
    + right. rewrite Hdocs, !map_app. apply in_or_app. left. apply in_or_app. right. now left.
    + unfold page. destruct (String.eqb_spec (sort_text h) ""); [contradiction|].
      rewrite Hdocs, <- app_assoc. cbn [app]. f_equal.
      apply hits_after_skip; [|reflexivity].
      pose proof cursors_distinct as Hnd.
      rewrite Hdocs, <- app_assoc, map_app in Hnd. cbn [app map] in Hnd.
      apply NoDup_app in Hnd. destruct Hnd as (_ & Hnd & _).
      intros Hin. apply (Hnd (sort_text h)).
      * now apply list_elem_of_In.
      * apply elem_of_cons. now left.
Qed.

Lemma cursor_trail_nil n c : cursor_trail n c [] = [c].
Proof. destruct n; reflexivity. Qed.

Lemma context_after_page done p st :
  ctx st = context_at done ->
  Z.of_nat (length (done ++ p)) <= int_max ->
  fold_left advance p (ctx st) = context_at (done ++ p).
Proof.
  intros Hctx Hfit. apply Context_eq.
  - rewrite fold_advance_Size, Hctx. reflexivity.
  - rewrite fold_advance_After, Hctx. cbn [After context_at].
    now rewrite map_app, last_cursor_app.
  - rewrite fold_advance_Counter, Hctx. cbn [Counter context_at].
    rewrite length_app in *. rewrite count_up; lia.
  - rewrite fold_advance_Template, Hctx. reflexivity.
Qed.

(** The producer, started after [done] with [rem] to fetch, asks for the
    windows of [rem] one after the other, then for one more, which is
    empty, and returns. *)
Lemma producer_pages n : forall done rem st tasks0,
  docs = done ++ rem ->
  ctx st = context_at done ->
  (length rem <= n)%nat ->
  producer Client (S n) config tasks0 st =
    Some ({| ctx := context_at docs;
             requests := requests st
                         ++ map request_for (cursor_trail n (After (ctx st)) rem) |},
          Ok (tasks0 ++ map record_of rem)).
Proof.
  induction n as [|n IH]; intros done rem st tasks0 Hdocs Hctx Hlen.
  all: destruct (cursor_at done rem Hdocs) as [Hin Hpage].
  all: destruct (served _ Hin) as (input & json & Hreply & Hparse & Hhits & Harr).
  all: rewrite Hpage in Harr.
  all: assert (Hexec : template.Execute (context_data (ctx st)) (Template (ctx st))
                       = Some (query_document (Z.of_nat window)
                                 (last_cursor "" (map sort_text done))))
         by (rewrite Hctx; apply Execute_query).
  all: rewrite producer_S, (producer_fetch_unfold Client config st _ Hexec), Hreply.
  all: cbn [Z.eqb StatusOK Pos.eqb].
  all: rewrite parse_search_results_unfold, Hparse, Hhits, Harr.
  all: destruct rem as [|h t]; [|try (cbn in Hlen; lia)].
  - rewrite firstn_nil, cursor_trail_nil, app_nil_r in *. cbn [length Nat.eqb map].
    unfold issue, request_for. rewrite app_nil_r, Hctx, Hdocs. reflexivity.
  - rewrite firstn_nil, cursor_trail_nil, app_nil_r in *. cbn [length Nat.eqb map].
    unfold issue, request_for. rewrite app_nil_r, Hctx, Hdocs. reflexivity.
  - remember (firstn window (h :: t)) as p eqn:Ep.
    assert (Hsplit : h :: t = p ++ skipn window (h :: t))
      by (rewrite Ep; symmetry; apply firstn_skipn).
    assert (Hfit : Z.of_nat (length (done ++ p)) <= int_max).
    { pose proof count_fits as Hc. rewrite Hdocs, Hsplit in Hc.
      rewrite !length_app in *. lia. }
    assert (Hctx' : fold_left advance p (ctx st) = context_at (done ++ p))
      by (apply context_after_page; assumption).
    destruct p as [|v l].
    { exfalso. destruct window; [lia|discriminate Ep]. }
    cbn zeta. rewrite !parse_hits_spec. cbn [fst snd app]. rewrite length_map.
    cbn [length Nat.eqb].
    rewrite (IH (done ++ v :: l) (skipn window (h :: t))).
    + cbn [ctx requests issue]. rewrite Hctx'. do 2 f_equal.
      * f_equal. rewrite <- app_assoc. f_equal.
        cbn [app cursor_trail map]. rewrite <- Ep, Hctx. cbn [After context_at].
        now rewrite map_app, last_cursor_app.
      * unfold record_of. rewrite <- app_assoc, <- map_app, <- Hsplit. reflexivity.
    + rewrite <- app_assoc, <- Hsplit. exact Hdocs.
    + cbn [ctx issue]. exact Hctx'.
    + rewrite length_skipn. cbn [length] in *. lia.
Qed.

Lemma cursor_trail_length n : forall c rem,
  length (cursor_trail n c rem) = S (length (windows window n rem)).
Proof.
  induction n as [|n IH]; intros c [|h t]; cbn [cursor_trail windows length];
    try reflexivity.
  now rewrite IH.
Qed.

(** The pages the service returns along the trail of cursors are the
    windows, then an empty page. *)
Lemma pages_of_trail n : forall done rem,
  docs = done ++ rem ->
  (length rem <= n)%nat ->
  map page (cursor_trail n (last_cursor "" (map sort_text done)) rem)
    = windows window n rem ++ [[]].
Proof.
  pose proof window_positive as Hw.
  induction n as [|n IH]; intros done rem Hdocs Hlen.
  all: destruct (cursor_at done rem Hdocs) as [_ Hpage].
  all: destruct rem as [|h t]; [|try (cbn in Hlen; lia)].
  - rewrite cursor_trail_nil. cbn [map windows app]. now rewrite Hpage, firstn_nil.
  - rewrite cursor_trail_nil. cbn [map windows app]. now rewrite Hpage, firstn_nil.
  - cbn [cursor_trail windows map app]. rewrite Hpage. f_equal.
    rewrite <- last_cursor_app, <- map_app.
    apply IH.
    + rewrite <- app_assoc, firstn_skipn. exact Hdocs.
    + rewrite length_skipn. cbn [length] in *. lia.
Qed.

End Index.


(* ===================================================================== *)
(** ** The five-document index, window of two *)
(* ===================================================================== *)

Lemma demo_served c :
  c = "" \/ In c (map sort_text demo.hits) ->
  exists input json,
    demo.client (search_request demo.config (query_document (Z.of_nat 2) c))
      = ReplyStatus StatusOK input
    /\ ParseBytes input = Some json
    /\ Exists (Some json) ["hits"] = true
    /\ GetArray (Get (Some json) ["hits"; "hits"]) [] = page demo.hits 2 c.
Proof.
  intros Hc.
  set (reply := demo.client (search_request demo.config (query_document (Z.of_nat 2) c))).
  exists (match reply with ReplyStatus _ b => b | ReplyError => "" end).
  exists (match ParseBytes (match reply with ReplyStatus _ b => b | ReplyError => "" end) with
          | Some j => j
          | None => VNull
          end).
  subst reply.
  destruct Hc as [->|[<-|[<-|[<-|[<-|[<-|[]]]]]]];
    (split; [vm_compute; reflexivity|]);
    (split; [vm_compute; reflexivity|]);
    (split; vm_compute; reflexivity).
Qed.


Lemma output_is_what_was_sent_witness :
  let s := run demo.client demo.no_brotli demo.config 3 demo.schedule
             (initial demo.config query_nodes ∅) in
  main_pc s = MReturned
  /\ tasks s = []
  /\ fs s !! File demo.config
     = Some (encoded demo.no_brotli demo.config (lines (sent s)))
  /\ exists k, producer demo.client k demo.config []
                 (producer_start demo.client demo.config query_nodes ∅)
               = Some (state s, Ok (sent s)).
Proof.
  intros s.
  assert (Hm : main_pc s = MReturned) by (vm_compute; reflexivity).
  split; [exact Hm|].
  apply (output_is_what_was_sent demo.client demo.no_brotli demo.config 3 query_nodes ∅ s);
    [|exact Hm].
  apply run_reachable. apply rtc_refl.
Defined.

Lemma existing_output_file_is_fatal_witness :
  let files : gmap string string := {[ "graylog_0.json" := "{}" ]} in
  let s := run demo.client demo.no_brotli demo.config main_capacity
             [TMain; TProducer; TConsumer; TProducer]
             (initial demo.config query_nodes files) in
  died s = Some OutputFileError
  /\ fs s = files
  /\ main_pc s <> MReturned
  /\ (cons_pc s = CIdle \/ cons_pc s = COpen)
  /\ (cons_pc s = COpen -> died s = None ->
      step_thread demo.client demo.no_brotli demo.config main_capacity TConsumer s
        = Some (set_died s OutputFileError)).
Proof.
  intros files s. split; [vm_compute; reflexivity|].
  apply (existing_output_file_is_fatal demo.client demo.no_brotli demo.config
           main_capacity query_nodes files "{}").
  - vm_compute. reflexivity.
  - apply run_reachable. apply rtc_refl.
Defined.

Lemma bad_search_reply_is_fatal_witness :
  let s := demo.started in
  let body := query_document 2 "" in
  let st' := issue (state s) (search_request demo.config body) in
  (forall fuel tasks0,
      producer demo.failing_client (S fuel) demo.config tasks0 (state s)
      = Some (st', Fatal (InvalidStatus 500)))
  /\ step_thread demo.failing_client demo.no_brotli demo.config main_capacity TProducer s
     = Some (set_died (set_state s st') (InvalidStatus 500))
  /\ forall t, step_thread demo.failing_client demo.no_brotli demo.config main_capacity t
                 (set_died (set_state s st') (InvalidStatus 500)) = None.
Proof.
  intros s body st'.
  apply (bad_search_reply_is_fatal demo.failing_client demo.no_brotli demo.config
           main_capacity s body (InvalidStatus 500)).
  - repeat split; vm_compute; reflexivity.
  - vm_compute. reflexivity.
  - left. split; [discriminate|reflexivity].
Defined.

Lemma zero_count_aborts_witness :
  let start := initial demo.config query_nodes ∅ in
  step_thread demo.empty_client demo.no_brotli demo.config main_capacity TMain start
  = Some (set_died (set_state start (issue (state start) (count_request demo.config)))
            NothingToDump).
Proof.
  intros start.
  refine (proj1 (zero_count_aborts demo.empty_client demo.no_brotli demo.config
                   main_capacity query_nodes ∅
                   (MarshalTo (VObject [("count", VNumber "0");
                                        ("_shards", VObject [("total", VNumber "1");
                                                             ("successful", VNumber "1");
                                                             ("failed", VNumber "0")])]))
                   (VObject [("count", VNumber "0");
                             ("_shards", VObject [("total", VNumber "1");
                                                  ("successful", VNumber "1");
                                                  ("failed", VNumber "0")])])
                   _ _ _)); vm_compute; reflexivity.
Defined.

Lemma missing_hits_array_ends_producer_witness :
  let s := demo.started in
  let st' := issue (state s) (search_request demo.config (query_document 2 "")) in
  run demo.odd_client demo.no_brotli demo.config main_capacity [TProducer; TProducer] s
  = set_prod (set_state s st') PDone.
Proof.
  intros s st'.
  refine (proj2 (proj2 (proj2
            (missing_hits_array_ends_producer demo.odd_client demo.no_brotli demo.config
               main_capacity s (query_document 2 "")
               (MarshalTo demo.odd_reply) demo.odd_reply
               _ _ _ _ _ _)))).
  - repeat split; vm_compute; reflexivity.
  - vm_compute. reflexivity.
  - vm_compute. reflexivity.
  - vm_compute. reflexivity.
  - vm_compute. reflexivity.
  - vm_compute. exact I.
Defined.

(* ===================================================================== *)
(** ** Properties: parsing what was serialised *)
(* ===================================================================== *)

(** A raw string text as the parser cuts it: no quote but after a
    backslash, no lone backslash at the end. *)
Fixpoint raw_ok (s : string) : bool :=
  match s with
  | EmptyString => true
  | String c r =>
      if Ascii.eqb c quote then false
      else if Ascii.eqb c "\"%char then
        match r with
        | EmptyString => false
        | String _ r' => raw_ok r'
        end
      else raw_ok r
  end.

(** A number text as the parser cuts it. *)
Definition number_ok (s : string) : bool :=
  negb (String.eqb s "") && all_bytes is_number_char s.

(** The values the parser builds. *)
Fixpoint wf (v : Value) : bool :=
  match v with
  | VNull | VTrue | VFalse => true
  | VNumber s => number_ok s
  | VString raw => raw_ok raw
  | VArray a => forallb wf a
  | VObject kvs => forallb (fun kv => raw_ok (fst kv) && wf (snd kv)) kvs
  end.

(** The nesting of a value, as [MaxDepth] counts it. *)
Fixpoint height (v : Value) : nat :=
  match v with
  | VArray a => S (list_max (map height a))
  | VObject kvs => S (list_max (map (fun kv => height (snd kv)) kvs))
  | _ => 1
  end.

(** A bound on the nested calls the parser makes for a value. *)
Fixpoint weight (v : Value) : nat :=
  match v with
  | VArray a => S (list_sum (map (fun x => S (weight x)) a))
  | VObject kvs => S (list_sum (map (fun kv => S (weight (snd kv))) kvs))
  | _ => 1
  end.

(** What may follow a value in a text: not a byte of a number. *)
Definition rest_ok (rest : string) : Prop :=
  match rest with
  | EmptyString => True
  | String c _ => is_number_char c = false
  end.

Lemma parseRawString_quoted n : forall s rest,
  (String.length s <= n)%nat ->
  raw_ok s = true ->
  parseRawString (s +:+ String quote rest) = Some (s, rest).
Proof.
  induction n as [|n IH]; intros [|c r] rest Hlen Hok; try reflexivity.
  - cbn in Hlen. lia.
  - cbn [String.append parseRawString raw_ok String.length] in *.
    destruct (Ascii.eqb c quote); [discriminate|].
    destruct (Ascii.eqb c "\"%char).
    + destruct r as [|d r']; [discriminate|].
      cbn [String.append String.length] in *.
      rewrite IH by (assumption || lia). reflexivity.
    + rewrite IH by (assumption || lia). reflexivity.
Qed.

Lemma parseRawString_sound n : forall s a t,
  (String.length s <= n)%nat ->
  parseRawString s = Some (a, t) ->
  raw_ok a = true /\ s = a +:+ String quote t.
Proof.
  induction n as [|n IH]; intros [|c r] a t Hlen Hp; try discriminate.
  - cbn in Hlen. lia.
  - cbn [parseRawString String.length] in *.
    destruct (Ascii.eqb_spec c quote) as [->|Hq].
    + injection Hp as <- <-. split; reflexivity.
    + destruct (Ascii.eqb c "\"%char) eqn:Eb.
      * destruct r as [|d r']; [discriminate|]. cbn [String.length] in Hlen.
        destruct (parseRawString r') as [[a' t']|] eqn:Er; [|discriminate].
        injection Hp as <- <-.
        destruct (IH r' a' t' ltac:(lia) Er) as [Ha ->].
        cbn [raw_ok String.append]. rewrite Eb.
        destruct (Ascii.eqb_spec c quote); [contradiction|]. now split.
      * destruct (parseRawString r) as [[a' t']|] eqn:Er; [|discriminate].
        injection Hp as <- <-.
        destruct (IH r a' t' ltac:(lia) Er) as [Ha ->].
        cbn [raw_ok String.append]. rewrite Eb.
        destruct (Ascii.eqb_spec c quote); [contradiction|]. now split.
Qed.

Lemma span_number_ok ns : forall rest,
  all_bytes is_number_char ns = true ->
  rest_ok rest ->
  span_number (ns +:+ rest) = (ns, rest).
Proof.
  induction ns as [|c r IH]; intros rest Hall Hrest.
  - cbn [String.append]. destruct rest as [|d t]; [reflexivity|].
    cbn [span_number]. cbn in Hrest. now rewrite Hrest.
  - cbn [all_bytes] in Hall. apply andb_true_iff in Hall. destruct Hall as [Hc Hr].
    cbn [String.append span_number]. now rewrite Hc, IH.
Qed.

Lemma span_number_sound s : forall ns t,
  span_number s = (ns, t) ->
  all_bytes is_number_char ns = true /\ s = ns +:+ t /\ rest_ok t.
Proof.
  induction s as [|c r IH]; intros ns t Hs; cbn [span_number] in Hs.
  - injection Hs as <- <-. repeat split.
  - destruct (is_number_char c) eqn:Ec.
    + destruct (span_number r) as [n' t'] eqn:Er. injection Hs as <- <-.
      destruct (IH n' t' eq_refl) as (Ha & -> & Ht).
      cbn [all_bytes String.append]. rewrite Ec. now repeat split.
    + injection Hs as <- <-. repeat split. exact Ec.
Qed.

(** A byte of a number is none of the bytes the parser dispatches on. *)
Lemma number_char_plain c :
  is_number_char c = true ->
  is_ws c = false
  /\ Ascii.eqb c "{"%char = false /\ Ascii.eqb c "["%char = false
  /\ Ascii.eqb c "}"%char = false /\ Ascii.eqb c "]"%char = false
  /\ Ascii.eqb c quote = false /\ Ascii.eqb c "t"%char = false
  /\ Ascii.eqb c "f"%char = false /\ Ascii.eqb c "n"%char = false.
Proof.
  destruct c as [[] [] [] [] [] [] [] []]; vm_compute; intros H;
    try discriminate H; repeat split.
Qed.

Lemma number_ok_cons s :
  number_ok s = true ->
  exists c r, s = String c r /\ is_number_char c = true
              /\ all_bytes is_number_char s = true.
Proof.
  unfold number_ok. intros H. apply andb_true_iff in H. destruct H as [Hne Hall].
  destruct s as [|c r]; [discriminate|]. exists c, r. repeat split; [|exact Hall].
  cbn [all_bytes] in Hall. now apply andb_true_iff in Hall.
Qed.

(** The first byte of the text of a value: not white space, not a closing
    bracket or brace. *)
Lemma marshal_head v :
  wf v = true ->
  exists c r, MarshalTo v = String c r /\ is_ws c = false
              /\ Ascii.eqb c "]"%char = false /\ Ascii.eqb c "}"%char = false.
Proof.
  destruct v; intros Hwf; cbn [MarshalTo];
    try (eexists _, _; repeat split; reflexivity).
  destruct (number_ok_cons s Hwf) as (c & r & -> & Hc & _).
  destruct (number_char_plain c Hc) as (? & ? & ? & ? & ? & _).
  now exists c, r.
Qed.

Lemma append_String c t u : String c (t +:+ u) = String c t +:+ u.
Proof. reflexivity. Qed.

(** Comparisons of two given bytes are evaluated. *)
Ltac eval_bytes_once :=
  unfold quote;
  repeat match goal with
         | |- context [Ascii.eqb (Ascii ?a0 ?a1 ?a2 ?a3 ?a4 ?a5 ?a6 ?a7)
                                 (Ascii ?b0 ?b1 ?b2 ?b3 ?b4 ?b5 ?b6 ?b7)] =>
             let e := constr:(Ascii.eqb (Ascii a0 a1 a2 a3 a4 a5 a6 a7)
                                        (Ascii b0 b1 b2 b3 b4 b5 b6 b7)) in
             let v := eval vm_compute in e in
             change e with v
         | |- context [is_ws (Ascii ?a0 ?a1 ?a2 ?a3 ?a4 ?a5 ?a6 ?a7)] =>
             let e := constr:(is_ws (Ascii a0 a1 a2 a3 a4 a5 a6 a7)) in
             let v := eval vm_compute in e in
             change e with v
         end;
  cbv beta iota.

Ltac eval_bytes := repeat (progress eval_bytes_once).

Lemma skipWS_head c r : is_ws c = false -> skipWS (String c r) = String c r.
Proof. intros H. cbn [skipWS]. now rewrite H. Qed.

Lemma MaxDepth_ok d h : (1 <= h)%nat -> (d + h <= MaxDepth)%nat -> (MaxDepth <? S d)%nat = false.
Proof. intros H1 H2. apply Nat.ltb_ge. lia. Qed.

Lemma height_pos v : (1 <= height v)%nat.
Proof. destruct v; cbn [height]; lia. Qed.

Lemma weight_pos v : (1 <= weight v)%nat.
Proof. destruct v; cbn [weight]; lia. Qed.

Lemma MarshalTo_array a : MarshalTo (VArray a) = "[" +:+ marshal_items a +:+ "]".
Proof. reflexivity. Qed.

Lemma MarshalTo_object kvs : MarshalTo (VObject kvs) = "{" +:+ marshal_members kvs +:+ "}".
Proof. reflexivity. Qed.

Lemma marshal_items_cons x y r :
  marshal_items (x :: y :: r) = MarshalTo x +:+ "," +:+ marshal_items (y :: r).
Proof. reflexivity. Qed.

Lemma marshal_members_cons k x kv r :
  marshal_members ((k, x) :: kv :: r)
  = quoted k +:+ ":" +:+ MarshalTo x +:+ "," +:+ marshal_members (kv :: r).
Proof. reflexivity. Qed.

Lemma marshal_members_one k x :
  marshal_members [(k, x)] = quoted k +:+ ":" +:+ MarshalTo x.
Proof. reflexivity. Qed.

(** The statement of the round trip for one value. *)
Definition parses_back (v : Value) : Prop :=
  wf v = true ->
  forall fuel d rest,
    (weight v <= fuel)%nat ->
    (d + height v <= MaxDepth)%nat ->
    rest_ok rest ->
    parseValue fuel d (MarshalTo v +:+ rest) = Some (v, rest).

Lemma parse_items a :
  Forall parses_back a ->
  a <> [] ->
  forallb wf a = true ->
  forall fuel d rest,
    (list_sum (map (fun x => S (weight x)) a) <= fuel)%nat ->
    (d + list_max (map height a) <= MaxDepth)%nat ->
    parseItems fuel d (marshal_items a +:+ String "]" rest) = Some (a, rest).
Proof.
  induction 1 as [|x r Hx Hr IH]; [congruence|]. intros _ Hwf fuel d rest Hfuel Hdepth.
  cbn [forallb map list_sum list_max fold_right] in Hwf, Hfuel, Hdepth.
  apply andb_true_iff in Hwf. destruct Hwf as [Hwx Hwr].
  destruct fuel as [|f]; [lia|]. cbn [parseItems].
  destruct (marshal_head x Hwx) as (c & t & Hhead & Hws & _).
  destruct r as [|y r]; cbn [map fold_right] in Hfuel, Hdepth.
  - change (marshal_items [x]) with (MarshalTo x).
    rewrite Hhead at 1. cbn [String.append]. rewrite skipWS_head by exact Hws.
    rewrite append_String, <- Hhead, (Hx Hwx) by (lia || reflexivity).
    reflexivity.
  - rewrite marshal_items_cons, !append_assoc.
    rewrite Hhead at 1. cbn [String.append]. rewrite skipWS_head by exact Hws.
    rewrite append_String, <- Hhead, (Hx Hwx) by (lia || reflexivity).
    cbn [skipWS]. eval_bytes.
    rewrite IH by (try discriminate; try assumption; cbn [map list_sum list_max fold_right]; lia).
    reflexivity.
Qed.

Lemma quoted_append k rest : quoted k +:+ rest = String quote (k +:+ String quote rest).
Proof. unfold quoted. cbn [String.append]. now rewrite append_assoc. Qed.

Lemma parse_members kvs :
  Forall (fun kv => parses_back (snd kv)) kvs ->
  kvs <> [] ->
  forallb (fun kv => raw_ok (fst kv) && wf (snd kv)) kvs = true ->
  forall fuel d rest,
    (list_sum (map (fun kv => S (weight (snd kv))) kvs) <= fuel)%nat ->
    (d + list_max (map (fun kv => height (snd kv)) kvs) <= MaxDepth)%nat ->
    parseMembers fuel d (marshal_members kvs +:+ String "}" rest) = Some (kvs, rest).
Proof.
  induction 1 as [|[k x] r Hx Hr IH]; [congruence|]. intros _ Hwf fuel d rest Hfuel Hdepth.
  cbn [forallb map list_sum list_max fold_right fst snd] in Hwf, Hfuel, Hdepth, Hx.
  apply andb_true_iff in Hwf. destruct Hwf as [Hwx Hwr].
  apply andb_true_iff in Hwx. destruct Hwx as [Hk Hwx].
  destruct fuel as [|f]; [lia|]. cbn [parseMembers].
  destruct (marshal_head x Hwx) as (c & t & Hhead & Hws & _).
  destruct r as [|kv r]; cbn [map fold_right] in Hfuel, Hdepth.
  - rewrite marshal_members_one, !append_assoc, quoted_append.
    cbn [skipWS]. eval_bytes.
    rewrite (parseRawString_quoted (String.length k)) by (exact Hk || lia).
    cbn [String.append skipWS]. eval_bytes.
    rewrite Hhead at 1. cbn [String.append]. rewrite skipWS_head by exact Hws.
    rewrite append_String, <- Hhead, (Hx Hwx) by (lia || reflexivity).
    cbn [skipWS]. eval_bytes. reflexivity.
  - rewrite marshal_members_cons, !append_assoc, quoted_append.
    cbn [skipWS]. eval_bytes.
    rewrite (parseRawString_quoted (String.length k)) by (exact Hk || lia).
    cbn [String.append skipWS]. eval_bytes.
    rewrite Hhead at 1. cbn [String.append]. rewrite skipWS_head by exact Hws.
    rewrite append_String, <- Hhead, (Hx Hwx) by (lia || reflexivity).
    cbn [skipWS]. eval_bytes.
    rewrite IH by (try discriminate; try assumption;
                   cbn [map list_sum list_max fold_right]; lia).
    reflexivity.
Qed.

Lemma parseValue_S f d c r :
  parseValue (S f) d (String c r) =
    if (MaxDepth <? S d)%nat then None
    else if Ascii.eqb c "{"%char then
      match skipWS r with
      | EmptyString => None
      | String c1 r1 =>
          if Ascii.eqb c1 "}"%char then Some (VObject [], r1)
          else match parseMembers f (S d) (String c1 r1) with
               | Some (kvs, t) => Some (VObject kvs, t)
               | None => None
               end
      end
    else if Ascii.eqb c "["%char then
      match skipWS r with
      | EmptyString => None
      | String c1 r1 =>
          if Ascii.eqb c1 "]"%char then Some (VArray [], r1)
          else match parseItems f (S d) (String c1 r1) with
               | Some (a, t) => Some (VArray a, t)
               | None => None
               end
      end
    else if Ascii.eqb c quote then
      match parseRawString r with
      | Some (ss, t) => Some (VString ss, t)
      | None => None
      end
    else if Ascii.eqb c "t"%char then
      match strip_prefix "true" (String c r) with
      | Some t => Some (VTrue, t)
      | None => None
      end
    else if Ascii.eqb c "f"%char then
      match strip_prefix "false" (String c r) with
      | Some t => Some (VFalse, t)
      | None => None
      end
    else if Ascii.eqb c "n"%char then
      match strip_prefix "null" (String c r) with
      | Some t => Some (VNull, t)
      | None => None
      end
    else
      match parseRawNumber (String c r) with
      | Some (ns, t) => Some (VNumber ns, t)
      | None => None
      end.
Proof. reflexivity. Qed.

(** Every value the parser can build is read back from its text. *)
Lemma parse_marshal v : parses_back v.
Proof.
  induction v as [| | |s|raw|a IH|kvs IH] using Value_ind';
    intros Hwf fuel d rest Hfuel Hdepth Hrest;
    (destruct fuel as [|f]; [cbn [weight] in Hfuel; lia|]).
  - cbn [MarshalTo String.append]. rewrite parseValue_S.
    rewrite (MaxDepth_ok d 1) by (cbn [height] in Hdepth; lia). reflexivity.
  - cbn [MarshalTo String.append]. rewrite parseValue_S.
    rewrite (MaxDepth_ok d 1) by (cbn [height] in Hdepth; lia). reflexivity.
  - cbn [MarshalTo String.append]. rewrite parseValue_S.
    rewrite (MaxDepth_ok d 1) by (cbn [height] in Hdepth; lia). reflexivity.
  - cbn [MarshalTo wf] in *.
    destruct (number_ok_cons s Hwf) as (c & r & -> & Hc & Hall).
    destruct (number_char_plain c Hc) as (_ & H1 & H2 & _ & _ & H3 & H4 & H5 & H6).
    cbn [String.append]. rewrite parseValue_S.
    rewrite (MaxDepth_ok d 1) by (cbn [height] in Hdepth; lia).
    rewrite H1, H2, H3, H4, H5, H6. unfold parseRawNumber.
    rewrite append_String, span_number_ok by assumption. reflexivity.
  - cbn [MarshalTo wf] in *. cbn [String.append]. rewrite append_assoc.
    cbn [String.append]. rewrite parseValue_S.
    rewrite (MaxDepth_ok d 1) by (cbn [height] in Hdepth; lia). eval_bytes.
    rewrite (parseRawString_quoted (String.length raw)) by (exact Hwf || lia).
    reflexivity.
  - rewrite MarshalTo_array, !append_assoc. cbn [String.append wf height weight] in *.
    rewrite parseValue_S, (MaxDepth_ok d 1) by lia. eval_bytes.
    destruct a as [|x r].
    + cbn [marshal_items String.append skipWS]. eval_bytes. reflexivity.
    + assert (Hwx : wf x = true) by (cbn [forallb] in Hwf; now apply andb_true_iff in Hwf).
      destruct (marshal_head x Hwx) as (c & t & Hhead & Hws & Hc & _).
      assert (Hitems : exists u, marshal_items (x :: r) = String c u).
      { destruct r; [now exists t|]. rewrite marshal_items_cons, Hhead. now eexists. }
      destruct Hitems as [u Hu]. rewrite Hu at 1. cbn [String.append].
      rewrite skipWS_head, Hc by exact Hws.
      rewrite append_String, <- Hu, (parse_items (x :: r) IH)
        by (try discriminate; try assumption; lia).
      reflexivity.
  - rewrite MarshalTo_object, !append_assoc. cbn [String.append wf height weight] in *.
    rewrite parseValue_S, (MaxDepth_ok d 1) by lia. eval_bytes.
    destruct kvs as [|[k x] r].
    + cbn [marshal_members String.append skipWS]. eval_bytes. reflexivity.
    + assert (Hitems : exists u, marshal_members ((k, x) :: r) = String quote u).
      { destruct r as [|kv r]; [rewrite marshal_members_one|rewrite marshal_members_cons];
          rewrite quoted_append; now eexists. }
      destruct Hitems as [u Hu]. rewrite Hu at 1. cbn [String.append skipWS]. eval_bytes.
      change (String (Ascii false true false false false true false false) (u +:+ String "}" rest))
        with (String quote u +:+ String "}" rest).
      rewrite <- Hu, (parse_members ((k, x) :: r) IH)
        by (try discriminate; try assumption; lia).
      reflexivity.
Qed.

Lemma items_length_bound a :
  Forall (fun x => wf x = true -> (weight x + 1 <= 2 * String.length (MarshalTo x))%nat) a ->
  forallb wf a = true ->
  (list_sum (map (fun x => S (weight x)) a) <= 2 * String.length (marshal_items a))%nat.
Proof.
  induction 1 as [|x r Hx Hr IH]; intros Hwf; [cbn; lia|].
  cbn [forallb] in Hwf. apply andb_true_iff in Hwf. destruct Hwf as [Hwx Hwr].
  specialize (Hx Hwx). specialize (IH Hwr).
  cbn [map list_sum fold_right]. fold (list_sum (map (fun x => S (weight x)) r)).
  destruct r as [|y r].
  - change (marshal_items [x]) with (MarshalTo x). cbn [map list_sum fold_right]. lia.
  - rewrite marshal_items_cons, !length_append. cbn [String.length]. lia.
Qed.

Lemma members_length_bound kvs :
  Forall (fun kv => wf (snd kv) = true ->
                    (weight (snd kv) + 1 <= 2 * String.length (MarshalTo (snd kv)))%nat) kvs ->
  forallb (fun kv => raw_ok (fst kv) && wf (snd kv)) kvs = true ->
  (list_sum (map (fun kv => S (weight (snd kv))) kvs)
   <= 2 * String.length (marshal_members kvs))%nat.
Proof.
  induction 1 as [|[k x] r Hx Hr IH]; intros Hwf; [cbn; lia|].
  cbn [forallb fst snd] in Hwf, Hx. apply andb_true_iff in Hwf. destruct Hwf as [Hwx Hwr].
  apply andb_true_iff in Hwx. destruct Hwx as [_ Hwx].
  specialize (Hx Hwx). specialize (IH Hwr).
  cbn [map list_sum fold_right snd].
  fold (list_sum (map (fun kv => S (weight (snd kv))) r)).
  destruct r as [|kv r].
  - rewrite marshal_members_one, !length_append. cbn [map list_sum fold_right]. lia.
  - rewrite marshal_members_cons, !length_append. cbn [String.length]. lia.
Qed.

(** Twice the length of its text bounds the calls a value needs. *)
Lemma weight_le_length v :
  wf v = true -> (weight v + 1 <= 2 * String.length (MarshalTo v))%nat.
Proof.
  induction v as [| | |s|raw|a IH|kvs IH] using Value_ind'; intros Hwf;
    cbn [wf weight] in *.
  - cbn. lia.
  - cbn. lia.
  - cbn. lia.
  - destruct (number_ok_cons s Hwf) as (c & r & -> & _). cbn. lia.
  - cbn [MarshalTo String.length]. lia.
  - rewrite MarshalTo_array, !length_append. cbn [String.length].
    pose proof (items_length_bound a IH Hwf). lia.
  - rewrite MarshalTo_object, !length_append. cbn [String.length].
    pose proof (members_length_bound kvs IH Hwf). lia.
Qed.

(** The text of a value the parser can build parses back to this value. *)
Lemma ParseBytes_MarshalTo v :
  wf v = true -> (height v <= MaxDepth)%nat -> ParseBytes (MarshalTo v) = Some v.
Proof.
  intros Hwf Hh. unfold ParseBytes.
  destruct (marshal_head v Hwf) as (c & t & Hhead & Hws & _).
  rewrite Hhead at 1 2. rewrite skipWS_head by exact Hws. rewrite <- Hhead.
  rewrite <- (append_nil_r (MarshalTo v)) at 2.
  rewrite (parse_marshal v Hwf) by (pose proof (weight_le_length v Hwf); cbn; lia || exact I).
  reflexivity.
Qed.

(** What the parser returns for the elements of a container at depth [d]. *)
Definition items_ok (d : nat) (a : list Value) : Prop :=
  Forall (fun x => wf x = true /\ (d + height x <= MaxDepth)%nat) a.

Definition members_ok (d : nat) (kvs : Members) : Prop :=
  Forall (fun kv => raw_ok (fst kv) = true /\ wf (snd kv) = true
                    /\ (d + height (snd kv) <= MaxDepth)%nat) kvs.

Lemma items_ok_wf d a : items_ok d a -> forallb wf a = true.
Proof.
  induction 1 as [|x r [Hx _] _ IH]; [reflexivity|]. cbn [forallb]. now rewrite Hx, IH.
Qed.

Lemma items_ok_height d a : items_ok (S d) a -> (S d <= MaxDepth)%nat ->
  (d + S (list_max (map height a)) <= MaxDepth)%nat.
Proof.
  intros H Hd. induction H as [|x r [_ Hx] _ IH]; cbn [map list_max fold_right]; [lia|].
  fold (list_max (map height r)). lia.
Qed.

Lemma members_ok_wf d kvs :
  members_ok d kvs -> forallb (fun kv => raw_ok (fst kv) && wf (snd kv)) kvs = true.
Proof.
  induction 1 as [|x r (Hk & Hx & _) _ IH]; [reflexivity|].
  cbn [forallb]. now rewrite Hk, Hx, IH.
Qed.

Lemma members_ok_height d kvs : members_ok (S d) kvs -> (S d <= MaxDepth)%nat ->
  (d + S (list_max (map (fun kv => height (snd kv)) kvs)) <= MaxDepth)%nat.
Proof.
  intros H Hd. induction H as [|x r (_ & _ & Hx) _ IH]; cbn [map list_max fold_right]; [lia|].
  fold (list_max (map (fun kv => height (snd kv)) r)). lia.
Qed.

(** Splits every [match] and [if] of a hypothesis that holds a result of
    the parser. *)
Ltac parse_cases H :=
  repeat match type of H with
         | context [match ?x with _ => _ end] =>
             let E := fresh "E" in destruct x eqn:E; try discriminate H
         | context [if ?x then _ else _] =>
             let E := fresh "E" in destruct x eqn:E; try discriminate H
         end;
  try (injection H as <- <-).

Lemma parse_sound n :
  (forall d s v t, parseValue n d s = Some (v, t) ->
                   wf v = true /\ (d + height v <= MaxDepth)%nat)
  /\ (forall d s a t, parseItems n d s = Some (a, t) -> items_ok d a)
  /\ (forall d s kvs t, parseMembers n d s = Some (kvs, t) -> members_ok d kvs).
Proof.
  induction n as [|n (IHv & IHi & IHm)]; [repeat split; discriminate|].
  split; [|split].
  - intros d [|c r] v t H; [discriminate H|]. rewrite parseValue_S in H.
    destruct (MaxDepth <? S d)%nat eqn:Ed; [discriminate H|].
    apply Nat.ltb_ge in Ed.
    parse_cases H; cbn [wf height]; try (split; [reflexivity|cbn; lia]).
    all: match goal with
         | E : parseMembers _ _ _ = Some _ |- _ =>
             pose proof (IHm _ _ _ _ E) as Hm; split;
             [eapply members_ok_wf; exact Hm|apply members_ok_height; assumption]
         | E : parseItems _ _ _ = Some _ |- _ =>
             pose proof (IHi _ _ _ _ E) as Hi; split;
             [eapply items_ok_wf; exact Hi|apply items_ok_height; assumption]
         | E : parseRawString ?r = Some _ |- _ =>
             destruct (parseRawString_sound (String.length r) r _ _ (le_n _) E) as [Hraw _];
             split; [exact Hraw|lia]
         | E : parseRawNumber ?s = Some _ |- _ =>
             unfold parseRawNumber in E;
             let Es := fresh "Es" in
             destruct (span_number s) as [ns t'] eqn:Es;
             destruct (span_number_sound _ _ _ Es) as (Hall & _ & _);
             destruct ns as [|c0 ns]; [discriminate E|]; injection E as <- <-;
             split; [|lia]; unfold number_ok; now rewrite Hall
         end.
  - intros d s a t H. cbn [parseItems] in H. parse_cases H.
    all: match goal with
         | E : parseValue _ _ _ = Some _ |- _ => destruct (IHv _ _ _ _ E) as [Hw Hh]
         end.
    all: constructor; [now split|].
    all: try constructor.
    match goal with E : parseItems _ _ _ = Some _ |- _ => exact (IHi _ _ _ _ E) end.
  - intros d s kvs t H. cbn [parseMembers] in H. parse_cases H.
    all: match goal with
         | E : parseValue _ _ _ = Some _ |- _ => destruct (IHv _ _ _ _ E) as [Hw Hh]
         end.
    all: match goal with
         | E : parseRawString ?r = Some _ |- _ =>
             destruct (parseRawString_sound (String.length r) r _ _ (le_n _) E) as [Hraw _]
         end.
    all: constructor; [now repeat split|].
    all: try constructor.
    match goal with E : parseMembers _ _ _ = Some _ |- _ => exact (IHm _ _ _ _ E) end.
Qed.

Lemma ParseBytes_sound input v :
  ParseBytes input = Some v -> wf v = true /\ (height v <= MaxDepth)%nat.
Proof.
  unfold ParseBytes. intros H.
  destruct (parseValue _ 0 (skipWS input)) as [[w tail]|] eqn:E; [|discriminate H].
  destruct (skipWS tail); [|discriminate H]. injection H as <-.
  exact (proj1 (parse_sound _) _ _ _ _ E).
Qed.

(** *** Values inside values *)

Lemma lookup_by_In f key kvs x :
  lookup_by f key kvs = Some x -> exists k, In (k, x) kvs /\ f k = key.
Proof.
  induction kvs as [|[k y] r IH]; [discriminate|]. cbn [lookup_by].
  destruct (String.eqb_spec (f k) key) as [Hk|_].
  - intros [= <-]. exists k. split; [now left|exact Hk].
  - intros H. destruct (IH H) as (k' & Hin & Hk'). exists k'. split; [now right|exact Hk'].
Qed.

Lemma Object_Get_In kvs key x :
  Object_Get kvs key = Some x ->
  exists k, In (k, x) kvs /\ (k = key \/ unescapeStringBestEffort k = key).
Proof.
  unfold Object_Get. intros H.
  destruct (contains_byte "\"%char key).
  - destruct (lookup_by_In _ _ _ _ H) as (k & Hin & Hk). exists k. tauto.
  - destruct (lookup_by id key kvs) as [y|] eqn:E.
    + injection H as ->. destruct (lookup_by_In _ _ _ _ E) as (k & Hin & Hk).
      exists k. split; [exact Hin|now left].
    + destruct (lookup_by_In _ _ _ _ H) as (k & Hin & Hk). exists k. tauto.
Qed.

Lemma member_height k x (kvs : Members) :
  In (k, x) kvs -> (height x <= list_max (map (fun kv => height (snd kv)) kvs))%nat.
Proof.
  intros Hin.
  assert (H : Forall (fun n => (n <= list_max (map (fun kv => height (snd kv)) kvs))%nat)
                (map (fun kv => height (snd kv)) kvs)) by now apply list_max_le.
  rewrite List.Forall_forall in H. apply H.
  apply (in_map (fun kv => height (snd kv)) kvs (k, x) Hin).
Qed.

Lemma item_height x (a : list Value) :
  In x a -> (height x <= list_max (map height a))%nat.
Proof.
  intros Hin.
  assert (H : Forall (fun n => (n <= list_max (map height a))%nat) (map height a))
    by now apply list_max_le.
  rewrite List.Forall_forall in H. apply H. now apply in_map.
Qed.

Lemma get1_wf v key x :
  wf v = true -> get1 v key = Some x -> wf x = true /\ (height x <= height v)%nat.
Proof.
  destruct v as [| | |s|raw|a|kvs]; cbn [get1 wf height]; intros Hwf H; try discriminate H.
  - destruct (Atoi key) as [n|]; [|discriminate H].
    destruct ((n <? 0) || (Z.of_nat (length a) <=? n)); [discriminate H|].
    apply nth_error_In in H. split.
    + rewrite forallb_forall in Hwf. now apply Hwf.
    + pose proof (item_height x a H). lia.
  - destruct (Object_Get_In kvs key x H) as (k & Hin & _). split.
    + rewrite forallb_forall in Hwf. specialize (Hwf _ Hin). cbn in Hwf.
      now apply andb_true_iff in Hwf.
    + pose proof (member_height k x kvs Hin). lia.
Qed.

Lemma Get_wf keys : forall v x,
  wf v = true -> Get (Some v) keys = Some x -> wf x = true /\ (height x <= height v)%nat.
Proof.
  induction keys as [|key r IH]; intros v x Hwf H.
  - injection H as <-. split; [exact Hwf|lia].
  - rewrite Get_cons in H. destruct (get1 v key) as [w|] eqn:E.
    + destruct (get1_wf v key w Hwf E) as [Hw Hh].
      destruct (IH w x Hw H) as [Hx Hhx]. split; [exact Hx|lia].
    + rewrite Get_None in H. discriminate H.
Qed.

Lemma GetArray_wf v keys x :
  wf v = true -> In x (GetArray (Get (Some v) keys) []) ->
  wf x = true /\ (height x <= height v)%nat.
Proof.
  unfold GetArray. rewrite Get_app, app_nil_r. intros Hwf Hin.
  destruct (Get (Some v) keys) as [[| | | | |a|]|] eqn:E; try contradiction.
  destruct (Get_wf keys v (VArray a) Hwf E) as [Ha Hh]. cbn [wf height] in Ha, Hh. split.
  - rewrite forallb_forall in Ha. now apply Ha.
  - pose proof (item_height x a Hin). lia.
Qed.

(** *** Removing the sort member *)

Lemma remove_by_split f key kvs x :
  lookup_by f key kvs = Some x ->
  exists l1 k l2,
    kvs = l1 ++ (k, x) :: l2 /\ remove_by f key kvs = l1 ++ l2 /\ f k = key.
Proof.
  induction kvs as [|[k y] r IH]; [discriminate|]. cbn [lookup_by remove_by].
  destruct (String.eqb_spec (f k) key) as [Hk|_].
  - intros [= <-]. now exists [], k, r.
  - intros H. destruct (IH H) as (l1 & k' & l2 & -> & -> & Hk').
    now exists ((k, y) :: l1), k', l2.
Qed.

Lemma Object_Del_split kvs key x :
  Object_Get kvs key = Some x ->
  exists l1 k l2,
    kvs = l1 ++ (k, x) :: l2 /\ Object_Del kvs key = l1 ++ l2
    /\ (k = key \/ unescapeStringBestEffort k = key).
Proof.
  unfold Object_Get, Object_Del. intros H.
  destruct (contains_byte "\"%char key).
  - destruct (remove_by_split _ _ _ _ H) as (l1 & k & l2 & H1 & H2 & H3).
    exists l1, k, l2. tauto.
  - destruct (lookup_by id key kvs) as [y|] eqn:E.
    + injection H as ->.
      destruct (remove_by_split _ _ _ _ E) as (l1 & k & l2 & H1 & H2 & H3).
      exists l1, k, l2. repeat split; try assumption. now left.
    + destruct (remove_by_split _ _ _ _ H) as (l1 & k & l2 & H1 & H2 & H3).
      exists l1, k, l2. tauto.
Qed.

(** The payload is the hit itself when it has no sort member; otherwise it
    is the hit less the one member that [Get] finds under "sort", the
    others being kept as they are, in order. *)
Definition sort_removed (v v' : Value) : Prop :=
  (Exists (Some v) ["sort"] = false /\ v' = v)
  \/ (exists l1 k x l2,
        v = VObject (l1 ++ (k, x) :: l2) /\ v' = VObject (l1 ++ l2)
        /\ Get (Some v) ["sort"] = Some x
        /\ unescapeStringBestEffort k = "sort").

Lemma strip_sort_spec v : sort_removed v (strip_sort v).
Proof.
  unfold sort_removed, strip_sort, Exists. rewrite Get_cons.
  destruct v as [| | |s|raw|a|kvs]; cbn [get1 Get Del]; try (left; now split).
  destruct (Object_Get kvs "sort") as [x|] eqn:E; [|left; now split].
  right. destruct (Object_Del_split kvs "sort" x E) as (l1 & k & l2 & -> & -> & Hk).
  exists l1, k, x, l2. repeat split. destruct Hk as [->|Hk]; [reflexivity|exact Hk].
Qed.

Lemma strip_sort_wf v :
  wf v = true -> wf (strip_sort v) = true /\ (height (strip_sort v) <= height v)%nat.
Proof.
  intros Hwf. destruct (strip_sort_spec v) as [[_ ->]|(l1 & k & x & l2 & -> & -> & _)].
  - split; [exact Hwf|lia].
  - cbn [wf height] in *. rewrite forallb_app in *. cbn [forallb] in Hwf.
    rewrite !map_app, !list_max_app. unfold list_max. cbn [map fold_right snd].
    apply andb_true_iff in Hwf. destruct Hwf as [H1 H2].
    apply andb_true_iff in H2. destruct H2 as [_ H2].
    rewrite H1, H2. split; [reflexivity|lia].
Qed.

(** When the names of the members of a hit are distinct, nothing is left
    under "sort". *)
Lemma strip_sort_gone v :
  (forall kvs, v = VObject kvs ->
               NoDup (map (fun kv => unescapeStringBestEffort (fst kv)) kvs)) ->
  Exists (Some (strip_sort v)) ["sort"] = false.
Proof.
  intros Hnd. destruct (strip_sort_spec v) as [[He ->]|(l1 & k & x & l2 & Hv & -> & _ & Hk)];
    [exact He|].
  specialize (Hnd _ Hv). unfold Exists. rewrite Get_cons. cbn [get1 Get].
  destruct (Object_Get (l1 ++ l2) "sort") as [y|] eqn:E; [exfalso|reflexivity].
  destruct (Object_Get_In _ _ _ E) as (k' & Hin & Hk').
  assert (Hk'' : unescapeStringBestEffort k' = "sort")
    by (destruct Hk' as [->|H]; [reflexivity|exact H]).
  rewrite map_app in Hnd. cbn [map fst] in Hnd. rewrite Hk in Hnd.
  apply NoDup_app in Hnd. destruct Hnd as (_ & Hdis & Hnd).
  apply NoDup_cons in Hnd. destruct Hnd as [Hnot _].
  apply in_app_or in Hin. destruct Hin as [Hin|Hin].
  - apply (Hdis "sort").
    + apply list_elem_of_In. rewrite <- Hk''.
      apply (in_map (fun kv => unescapeStringBestEffort (fst kv)) l1 (k', y) Hin).
    + apply elem_of_cons. now left.
  - apply Hnot. apply list_elem_of_In. rewrite <- Hk''.
    apply (in_map (fun kv => unescapeStringBestEffort (fst kv)) l2 (k', y) Hin).
Qed.



(* ===================================================================== *)
(** ** Properties: the query document *)
(* ===================================================================== *)

Lemma parse_search_results_requests input st :
  requests (fst (parse_search_results input st)) = requests st.
Proof.
  rewrite parse_search_results_unfold.
  destruct (ParseBytes input) as [json|]; [|reflexivity].
  destruct (Exists (Some json) ["hits"]); [|reflexivity].
  destruct (GetArray _ _); reflexivity.
Qed.

Lemma producer_fetch_requests Client config st body :
  template.Execute (context_data (ctx st)) (Template (ctx st)) = Some body ->
  requests (fst (producer_fetch Client config st))
  = requests st ++ [search_request config body].
Proof.
  intros H. rewrite (producer_fetch_unfold Client config st body H).
  destruct (Client _) as [|code input]; [reflexivity|].
  destruct (code =? StatusOK); [|reflexivity].
  now rewrite parse_search_results_requests.
Qed.

Lemma search_after_clause_empty c : search_after_clause c = "" <-> c = "".
Proof.
  unfold search_after_clause. destruct (String.eqb_spec c "") as [->|Hne].
  - tauto.
  - split; [discriminate|contradiction].
Qed.


(* ===================================================================== *)
(** ** Further properties: the producer against any service *)
(* ===================================================================== *)

(** Counting [n] hits from [z], as [ctx.Counter++] does. *)
Definition counted (n : nat) (z : Z) : Z := Nat.iter n (fun z => wrap_int (z + 1)) z.

Lemma counted_add n m z : counted (n + m) z = counted m (counted n z).
Proof.
  unfold counted. rewrite Nat.add_comm. apply Nat.iter_add.
Qed.

Section AnyService.

Variable Client : Transport.
Variable config : Configuration.

(** One turn of the loop, whatever the service answers: one search request
    is issued with the query document of the current cursor; window size
    and template are kept; a cursor that is set stays set; a window that
    parses moves the counter by its number of records; a fatal turn leaves
    the context as it was. *)
Lemma producer_fetch_any st :
  Template (ctx st) = query_nodes ->
  requests (fst (producer_fetch Client config st))
    = requests st
      ++ [search_request config (query_document (Size (ctx st)) (After (ctx st)))]
  /\ Size (ctx (fst (producer_fetch Client config st))) = Size (ctx st)
  /\ Template (ctx (fst (producer_fetch Client config st))) = Template (ctx st)
  /\ (After (ctx st) <> "" -> After (ctx (fst (producer_fetch Client config st))) <> "")
  /\ match snd (producer_fetch Client config st) with
     | Ok r => Counter (ctx (fst (producer_fetch Client config st)))
               = counted (length r) (Counter (ctx st))
     | Fatal _ => ctx (fst (producer_fetch Client config st)) = ctx st
     end.
Proof.
  intros Ht.
  assert (Hexec : template.Execute (context_data (ctx st)) (Template (ctx st))
                  = Some (query_document (Size (ctx st)) (After (ctx st))))
    by (rewrite Ht; apply Execute_query).
  split; [exact (producer_fetch_requests Client config st _ Hexec)|].
  rewrite (producer_fetch_unfold Client config st _ Hexec).
  destruct (Client _) as [|code input]; [now repeat split|].
  destruct (code =? StatusOK); [|now repeat split].
  rewrite parse_search_results_unfold.
  destruct (ParseBytes input) as [json|]; [|now repeat split].
  destruct (Exists (Some json) ["hits"]); [|now repeat split].
  destruct (GetArray _ _) as [|v r]; [now repeat split|].
  cbn [fst snd ctx issue]. rewrite parse_hits_spec. cbn [fst snd app].
  rewrite fold_advance_Size, fold_advance_Template, fold_advance_After,
    fold_advance_Counter, length_map.
  repeat split. apply last_cursor_nonempty.
Qed.

(** The context along a whole run of [producer]. *)
Lemma producer_context fuel : forall tasks0 st st' res,
  Template (ctx st) = query_nodes ->
  producer Client fuel config tasks0 st = Some (st', res) ->
  Size (ctx st') = Size (ctx st)
  /\ Template (ctx st') = Template (ctx st)
  /\ (After (ctx st) <> "" -> After (ctx st') <> "")
  /\ match res with
     | Ok tasks1 =>
         exists out, tasks1 = tasks0 ++ out
                     /\ Counter (ctx st') = counted (length out) (Counter (ctx st))
     | Fatal _ => True
     end.
Proof.
  induction fuel as [|fuel IH]; intros tasks0 st st' res Ht H; [discriminate H|].
  rewrite producer_S in H.
  destruct (producer_fetch_any st Ht) as (_ & Hsize & Htmpl & Hafter & Hcount).
  destruct (producer_fetch Client config st) as [st1 [r|e]] eqn:Ef; cbn [fst snd] in *.
  - destruct (length r =? 0)%nat eqn:El.
    + injection H as <- <-. repeat split; try assumption.
      exists r. split; [reflexivity|exact Hcount].
    + assert (Ht1 : Template (ctx st1) = query_nodes) by congruence.
      destruct (IH _ _ _ _ Ht1 H) as (Hs & Htm & Ha & Hres).
      repeat split; try congruence.
      * intros Hne. apply Ha, Hafter, Hne.
      * destruct res as [tasks1|]; [|exact I].
        destruct Hres as (out & -> & Hc). exists (r ++ out).
        split; [now rewrite app_assoc|].
        now rewrite length_app, counted_add, <- Hcount.
  - injection H as <- <-. repeat split; congruence.
Qed.

(** The requests of a whole run of [producer]. *)
Lemma producer_requests fuel : forall tasks0 st st' res,
  Template (ctx st) = query_nodes ->
  producer Client fuel config tasks0 st = Some (st', res) ->
  exists bodies, bodies <> []
                 /\ requests st' = requests st ++ map (search_request config) bodies.
Proof.
  induction fuel as [|fuel IH]; intros tasks0 st st' res Ht H; [discriminate H|].
  rewrite producer_S in H.
  destruct (producer_fetch_any st Ht) as (Hreq & _ & Htmpl & _ & _).
  destruct (producer_fetch Client config st) as [st1 [r|e]] eqn:Ef; cbn [fst snd] in *.
  - destruct (length r =? 0)%nat eqn:El.
    + injection H as <- <-. eexists [_]. split; [discriminate|exact Hreq].
    + assert (Ht1 : Template (ctx st1) = query_nodes) by congruence.
      destruct (IH _ _ _ _ Ht1 H) as (bodies & _ & Hb).
      eexists (_ :: bodies). split; [discriminate|].
      rewrite Hb, Hreq, <- app_assoc. reflexivity.
  - injection H as <- <-. eexists [_]. split; [discriminate|exact Hreq].
Qed.

End AnyService.



(* ===================================================================== *)
(** ** Further properties: the running process *)
(* ===================================================================== *)

Section Shape.

Variable Client : Transport.
Variable brotli_encode : Z -> string -> string.
Variable config : Configuration.
Variable capacity : nat.
Variable nodes : template.Template.
Variable files : gmap string string.

Abbreviation start := (initial config nodes files).
Abbreviation step_of := (step_thread Client brotli_encode config capacity).
Abbreviation reach := (reachable Client brotli_encode config capacity nodes files).

(** What holds of every state the process reaches, dead or alive. *)
Definition shape_inv (s : System) : Prop :=
  (main_pc s = MStart ->
   prod_pc s = PIdle /\ cons_pc s = CIdle /\ tasks s = [] /\ closed s = false)
  /\ (main_pc s <> MStart -> prod_pc s <> PIdle /\ cons_pc s <> CIdle)
  /\ (capacity = 0%nat \/ length (tasks s) <= capacity)%nat
  /\ (capacity = 0%nat -> tasks s = [])
  /\ (closed s = true -> prod_pc s = PDone)
  /\ (forall path, path <> File config -> fs s !! path = files !! path)
  /\ (cons_pc s = CIdle \/ cons_pc s = COpen -> fs s = files).

Lemma main_start_fields s :
  fs (main_start Client config s) = fs s
  /\ tasks (main_start Client config s) = tasks s
  /\ closed (main_start Client config s) = closed s
  /\ sent (main_start Client config s) = sent s
  /\ ((died (main_start Client config s) <> None
       /\ main_pc (main_start Client config s) = main_pc s
       /\ prod_pc (main_start Client config s) = prod_pc s
       /\ cons_pc (main_start Client config s) = cons_pc s)
      \/ (died (main_start Client config s) = died s
          /\ main_pc (main_start Client config s) = MWait
          /\ prod_pc (main_start Client config s) = PLoop
          /\ cons_pc (main_start Client config s) = COpen)).
Proof.
  unfold main_start. destruct (query_count_database Client config (state s)) as [st' [c|e]].
  - destruct (c =? 0); cbn; repeat split; (left; now repeat split) || (right; now repeat split).
  - cbn. repeat split. left. now repeat split.
Qed.

Lemma consume_other snk data s :
  state (consume config snk data s) = state s
  /\ tasks (consume config snk data s) = tasks s
  /\ closed (consume config snk data s) = closed s
  /\ sent (consume config snk data s) = sent s
  /\ main_pc (consume config snk data s) = main_pc s
  /\ prod_pc (consume config snk data s) = prod_pc s
  /\ died (consume config snk data s) = died s
  /\ (exists snk', cons_pc (consume config snk data s) = CNewline snk')
  /\ (forall path, path <> File config ->
        fs (consume config snk data s) !! path = fs s !! path).
Proof.
  rewrite consume_fields. cbn. repeat split; [now eexists|].
  intros path Hp. now rewrite lookup_insert_ne.
Qed.

Ltac shape_auto :=
  cbn; repeat split; intros;
  try assumption; try discriminate; try congruence;
  try solve [rewrite lookup_insert_ne by congruence; auto];
  try solve [match goal with
             | Hc : closed ?y = true -> _, H : closed ?y = true |- _ =>
                 specialize (Hc H); congruence
             end];
  try solve [auto];
  try solve [match goal with
             | Hr : ?a <> MStart -> _ |- _ =>
                 let Hn := fresh in
                 assert (Hn : a <> MStart) by congruence;
                 destruct (Hr Hn); congruence
             end];
  try solve [match goal with
             | Hs : ?a = MStart -> _, H : ?a = MStart |- _ =>
                 destruct (Hs H) as (? & ? & ? & ?); congruence
             end];
  try solve [match goal with H : _ \/ _ |- _ => destruct H; congruence end].

Lemma shape_inv_step y z t : shape_inv y -> step_of t y = Some z -> shape_inv z.
Proof.
  intros (Hstart & Hrun & Hcap & Hzero & Hclosed & Hother & Hidle) Hstep.
  step_inv Hstep; subst z; unfold shape_inv.
  - (* main: the count query *)
    destruct (Hstart eq_refl) as (Hp & Hc & Ht & Hcl).
    destruct (main_start_fields y) as (-> & -> & -> & _ & [(_ & -> & -> & ->)|(_ & -> & -> & ->)]).
    + repeat split; try assumption; try tauto; congruence.
    + repeat split; try assumption; try discriminate; try congruence.
      intros _. apply Hidle. now left.
  - shape_auto.
  - shape_auto.
  - shape_auto.
  - shape_auto.
  - shape_auto.
  - (* hand-off *)
    destruct (consume_other snk s
                (set_prod (set_sent y (sent y ++ [s])) (PRange r l)))
      as (_ & Ht & Hcl & _ & Hm & Hp & _ & (snk' & Hc) & Hfs).
    rewrite Ht, Hcl, Hm, Hp, Hc. shape_auto.
    rewrite Hfs by assumption. cbn. auto.
  - apply Nat.eqb_neq in E4. apply Nat.ltb_lt in E5. shape_auto.
    right. rewrite length_app. cbn. lia.
  - shape_auto.
  - shape_auto.
  - shape_auto.
  - shape_auto.
  - destruct (consume_other snk s (set_tasks y l))
      as (_ & Ht & Hcl & _ & Hm & Hp & _ & (snk' & Hc) & Hfs).
    rewrite Ht, Hcl, Hm, Hp, Hc. shape_auto.
    + destruct Hcap as [Hcap|Hcap]; [now left|right; cbn in Hcap; lia].
    + match goal with H0 : capacity = 0%nat |- _ => specialize (Hzero H0) end.
      discriminate Hzero.
    + rewrite Hfs by assumption. cbn. auto.
  - shape_auto.
Qed.

Lemma shape_inv_reachable s : reach s -> shape_inv s.
Proof.
  revert s. apply reachable_ind.
  - unfold shape_inv. cbn. repeat split; try discriminate; try tauto.
    right. lia.
  - intros y z t _ Hstep Hy. exact (shape_inv_step y z t Hy Hstep).
Qed.

End Shape.

Section Guarantees.

Variable Client : Transport.
Variable brotli_encode : Z -> string -> string.
Variable config : Configuration.
Variable capacity : nat.
Variable nodes : template.Template.
Variable files : gmap string string.

Abbreviation start := (initial config nodes files).
Abbreviation step_of := (step_thread Client brotli_encode config capacity).
Abbreviation reach := (reachable Client brotli_encode config capacity nodes files).

Lemma step_from_live t y z : step_of t y = Some z -> died y = None.
Proof. unfold step_thread. destruct (died y); [discriminate|reflexivity]. Qed.

(** A step that ends the process leaves channel, files and consumer as
    they were. *)
Lemma fatal_step_fields t y z :
  step_of t y = Some z -> died z <> None ->
  cons_pc z = cons_pc y /\ sent z = sent y /\ tasks z = tasks y
  /\ fs z = fs y /\ closed z = closed y.
Proof.
  intros Hstep Hd. step_inv Hstep; subst z;
    try solve [cbn in Hd; congruence]; try solve [cbn; repeat split; congruence];
    try solve [rewrite consume_fields in Hd; cbn in Hd; congruence].
  destruct (main_start_fields Client config y)
    as (H1 & H2 & H3 & H4 & [(_ & _ & _ & H5)|(H5 & _)]);
    [now repeat split|congruence].
Qed.

Lemma cons_inv_fields s s' :
  cons_pc s' = cons_pc s -> sent s' = sent s -> tasks s' = tasks s ->
  fs s' = fs s -> closed s' = closed s ->
  cons_inv brotli_encode config s -> cons_inv brotli_encode config s'.
Proof. unfold cons_inv. now intros -> -> -> -> ->. Qed.

(** The account of what the consumer did holds in every state, also after
    a fatal error. *)
Lemma cons_inv_reachable s : reach s -> cons_inv brotli_encode config s.
Proof.
  revert s. apply reachable_ind; [reflexivity|].
  intros y z t Hy Hstep IH.
  pose proof (pipeline_inv_reachable Client brotli_encode config capacity nodes files y Hy)
    as Hpy.
  pose proof (inv_step Client brotli_encode config capacity nodes files y z t Hpy Hstep)
    as [_ Hz].
  destruct (died z) as [e|] eqn:Ed.
  - destruct (fatal_step_fields t y z Hstep) as (H1 & H2 & H3 & H4 & H5); [congruence|].
    exact (cons_inv_fields y z H1 H2 H3 H4 H5 IH).
  - specialize (Hz eq_refl). destruct (main_pc z).
    + subst z. reflexivity.
    + tauto.
    + tauto.
Qed.

(** No deadlock: while the process is alive and [main] has not returned,
    some thread can take a step, whatever the capacity of the channel. *)
Theorem pipeline_never_deadlocks (s : System) :
  reach s -> died s = None -> main_pc s <> MReturned ->
  exists t s', step_of t s = Some s'.
Proof.
  intros Hs Hlive Hm.
  destruct (shape_inv_reachable Client brotli_encode config capacity nodes files s Hs)
    as (_ & Hrun & Hcap & Hzero & _ & _ & _).
  assert (Hex : exited s = false) by (unfold exited; destruct (main_pc s); congruence).
  unfold step_thread. rewrite Hlive, Hex.
  destruct (main_pc s) eqn:Em; [exists TMain; eauto| |contradiction].
  destruct (Hrun ltac:(discriminate)) as [Hp Hc].
  destruct (cons_pc s) as [| |snk|snk|] eqn:Ec; [contradiction| | | |].
  - exists TConsumer. destruct (fs s !! File config); eauto.
  - destruct (tasks s) as [|data rest] eqn:Et; [|exists TConsumer; eauto].
    destruct (closed s) eqn:Ecl; [exists TConsumer; eauto|].
    destruct (prod_pc s) as [| |r [|x more]|] eqn:Ep; [contradiction| | | |].
    + exists TProducer. destruct (producer_fetch Client config (state s)) as [st' [r|e]]; eauto.
    + exists TProducer. destruct (length r =? 0)%nat; eauto.
    + exists TProducer. destruct (capacity =? 0)%nat eqn:E0; [eauto|].
      apply Nat.eqb_neq in E0.
      assert ((length (@nil string) <? capacity)%nat = true) as -> by (apply Nat.ltb_lt; cbn; lia).
      eauto.
    + exists TCloser. eauto.
  - exists TConsumer. destruct (out_Write config snk (file_of config s) ln). eauto.
  - exists TMain. eauto.
Qed.


(** The only file the process ever creates or writes is the one at the
    output path: every other path holds what it held before, and as long
    as the consumer has not opened the output no file has changed. *)
Theorem no_other_file_touched (s : System) :
  reach s ->
  (forall path, path <> File config -> fs s !! path = files !! path)
  /\ (cons_pc s = CIdle \/ cons_pc s = COpen -> fs s = files).
Proof.
  intros Hs.
  destruct (shape_inv_reachable Client brotli_encode config capacity nodes files s Hs)
    as (_ & _ & _ & _ & _ & Hother & Hidle).
  now split.
Qed.


End Guarantees.

(** A run that is cut in the middle: two records written, a third in the
    channel. *)
Definition demo_midway : System :=
  run demo.client demo.no_brotli demo.config 3
    [TMain; TConsumer; TProducer; TProducer; TProducer; TConsumer; TConsumer;
     TConsumer; TConsumer; TProducer; TProducer; TProducer]
    (initial demo.config query_nodes ∅).

Lemma demo_midway_reachable :
  reachable demo.client demo.no_brotli demo.config 3 query_nodes ∅ demo_midway.
Proof. apply run_reachable. apply rtc_refl. Qed.

Lemma pipeline_never_deadlocks_witness :
  exists t s',
    step_thread demo.client demo.no_brotli demo.config 3 t demo_midway = Some s'.
Proof.
  apply (pipeline_never_deadlocks demo.client demo.no_brotli demo.config 3 query_nodes ∅).
  - exact demo_midway_reachable.
  - vm_compute. reflexivity.
  - vm_compute. discriminate.
Defined.


Lemma no_other_file_touched_witness :
  (forall path, path <> File demo.config ->
     fs demo_midway !! path = (∅ : gmap string string) !! path)
  /\ (cons_pc demo_midway = CIdle \/ cons_pc demo_midway = COpen -> fs demo_midway = ∅).
Proof.
  exact (no_other_file_touched demo.client demo.no_brotli demo.config 3 query_nodes ∅
           demo_midway demo_midway_reachable).
Defined.


(* ===================================================================== *)
(** ** Further properties: the whole export *)
(* ===================================================================== *)

(** More turns than needed change nothing. *)
Lemma producer_more_fuel Client config k : forall j tasks0 st r,
  producer Client k config tasks0 st = Some r ->
  producer Client (k + j) config tasks0 st = Some r.
Proof.
  induction k as [|k IH]; intros j tasks0 st r H; [discriminate H|].
  cbn [Nat.add]. rewrite producer_S in *.
  destruct (producer_fetch Client config st) as [st1 [p|e]]; [|exact H].
  destruct (length p =? 0)%nat; [exact H|]. now apply IH.
Qed.

Lemma producer_fuel_agree Client config k k' tasks0 st r r' :
  producer Client k config tasks0 st = Some r ->
  producer Client k' config tasks0 st = Some r' ->
  r = r'.
Proof.
  intros H H'.
  apply (producer_more_fuel Client config k k') in H.
  apply (producer_more_fuel Client config k' k) in H'.
  rewrite Nat.add_comm in H'. congruence.
Qed.

Lemma producer_start_eq Client config nodes files :
  producer_start Client config nodes files
  = {| ctx := {| Size := cfg_Size config; After := ""; Counter := 0; Template := nodes |};
       requests := [count_request config] |}.
Proof. unfold producer_start. now rewrite query_count_database_unfold. Qed.

(** What a completed process has done, in terms of [producer]. *)
Lemma returned_run Client brotli_encode config capacity nodes files s :
  reachable Client brotli_encode config capacity nodes files s ->
  main_pc s = MReturned ->
  fs s !! File config = Some (encoded brotli_encode config (lines (sent s)))
  /\ exists k, producer Client k config [] (producer_start Client config nodes files)
               = Some (state s, Ok (sent s)).
Proof.
  intros Hs Hm.
  destruct (pipeline_inv_reachable Client brotli_encode config capacity nodes files s Hs)
    as [Hret Hlive].
  destruct (Hret Hm) as [Hd Hc]. specialize (Hlive Hd). rewrite Hm in Hlive.
  destruct Hlive as (Hcons & Hclosed & Hprod).
  unfold cons_inv in Hcons. rewrite Hc in Hcons. destruct Hcons as (_ & Hcl & Hf).
  unfold prod_inv in Hprod. rewrite (Hclosed Hcl) in Hprod. now split.
Qed.

(** The number [main] reports when it returns is the number of records in
    the output: the counter of the context has counted, from zero, exactly
    the records that were sent, and the file holds exactly their lines. *)
Theorem reported_count_is_records_written
  (Client : Transport) (brotli_encode : Z -> string -> string)
  (config : Configuration) (capacity : nat) (files : gmap string string) (s : System) :
  reachable Client brotli_encode config capacity query_nodes files s ->
  main_pc s = MReturned ->
  Counter (ctx (state s)) = counted (length (sent s)) 0
  /\ (Z.of_nat (length (sent s)) <= int_max ->
      Counter (ctx (state s)) = Z.of_nat (length (sent s)))
  /\ fs s !! File config = Some (encoded brotli_encode config (lines (sent s))).
Proof.
  intros Hs Hm.
  destruct (returned_run Client brotli_encode config capacity query_nodes files s Hs Hm)
    as (Hf & k & Hk).
  rewrite producer_start_eq in Hk.
  destruct (producer_context Client config k []
              {| ctx := {| Size := cfg_Size config; After := ""; Counter := 0;
                           Template := query_nodes |};
                 requests := [count_request config] |}
              (state s) (Ok (sent s)) eq_refl Hk)
    as (_ & _ & _ & out & Hout & Hcount).
  cbn [app] in Hout. subst out. cbn [ctx Counter] in Hcount.
  repeat split; try assumption.
  intros Hfit. rewrite Hcount. unfold counted. rewrite count_up; lia.
Qed.

Lemma reported_count_is_records_written_witness :
  let s := run demo.client demo.no_brotli demo.config 3 demo.schedule
             (initial demo.config query_nodes ∅) in
  Counter (ctx (state s)) = counted (length (sent s)) 0
  /\ (Z.of_nat (length (sent s)) <= int_max ->
      Counter (ctx (state s)) = Z.of_nat (length (sent s)))
  /\ fs s !! File demo.config = Some (encoded demo.no_brotli demo.config (lines (sent s))).
Proof.
  intros s.
  apply (reported_count_is_records_written demo.client demo.no_brotli demo.config 3 ∅ s).
  - apply run_reachable. apply rtc_refl.
  - vm_compute. reflexivity.
Defined.



(** ** The count reply *)

Ltac digit_step :=
  repeat match goal with
         | |- context [is_digit ?c] =>
             let b := eval vm_compute in (is_digit c) in change (is_digit c) with b
         | |- context [digit_val ?c] =>
             let v := eval vm_compute in (digit_val c) in change (digit_val c) with v
         end;
  cbv iota.

Lemma digits_val_acc (d : Decimal.uint) (acc : positive) :
  digits_val (Z.pos acc) (NilEmpty.string_of_uint d) = Some (Z.pos (Pos.of_uint_acc d acc)).
Proof.
  revert acc.
  induction d as [|d IH|d IH|d IH|d IH|d IH|d IH|d IH|d IH|d IH|d IH]; intros acc;
    cbn [NilEmpty.string_of_uint digits_val Pos.of_uint_acc]; [reflexivity|..];
    digit_step; rewrite <- IH; f_equal; lia.
Qed.

Lemma digits_val_uint (d : Decimal.uint) :
  digits_val 0 (NilEmpty.string_of_uint d) = Some (Z.of_N (Pos.of_uint d)).
Proof.
  induction d as [|d IH|d IH|d IH|d IH|d IH|d IH|d IH|d IH|d IH|d IH];
    cbn [NilEmpty.string_of_uint digits_val Pos.of_uint]; [reflexivity|..];
    digit_step; [exact IH|..]; cbn [Z.mul Z.add Z.of_N]; apply digits_val_acc.
Qed.

Lemma digits_val_pos (p : positive) :
  digits_val 0 (NilEmpty.string_of_uint (Pos.to_uint p)) = Some (Z.pos p).
Proof. now rewrite digits_val_uint, DecimalPos.Unsigned.of_to. Qed.

Lemma string_of_pos_head (p : positive) :
  exists c r, NilEmpty.string_of_uint (Pos.to_uint p) = String c r /\ is_digit c = true.
Proof.
  pose proof (DecimalPos.Unsigned.to_uint_nonnil p) as Hn.
  destruct (Pos.to_uint p); [congruence|..]; cbn [NilEmpty.string_of_uint];
    eexists _, _; (split; [reflexivity|vm_compute; reflexivity]).
Qed.

Lemma string_of_Z_pos (p : positive) :
  string_of_Z (Z.pos p) = NilEmpty.string_of_uint (Pos.to_uint p).
Proof.
  unfold string_of_Z, Z.to_int, NilZero.string_of_int, NilZero.string_of_uint.
  pose proof (DecimalPos.Unsigned.to_uint_nonnil p) as Hn.
  now destruct (Pos.to_uint p).
Qed.

Lemma string_of_Z_neg (p : positive) :
  string_of_Z (Z.neg p) = String "-" (NilEmpty.string_of_uint (Pos.to_uint p)).
Proof.
  unfold string_of_Z, Z.to_int, NilZero.string_of_int, NilZero.string_of_uint.
  pose proof (DecimalPos.Unsigned.to_uint_nonnil p) as Hn.
  now destruct (Pos.to_uint p).
Qed.

Lemma is_digit_not_minus (c : ascii) : is_digit c = true -> Ascii.eqb c "-" = false.
Proof.
  intros H. destruct (Ascii.eqb_spec c "-"%char) as [->|]; [|reflexivity].
  vm_compute in H. discriminate H.
Qed.

(** A decimal numeral is read back as the integer it denotes, or as 0 when
    that integer does not fit [int]. *)
Lemma ParseInt64BestEffort_decimal (z : Z) :
  ParseInt64BestEffort (string_of_Z z) = if in_int z then z else 0.
Proof.
  destruct z as [|p|p].
  - reflexivity.
  - rewrite string_of_Z_pos.
    destruct (string_of_pos_head p) as (c & r & E & Hc).
    pose proof (digits_val_pos p) as Hd. rewrite E in *.
    unfold ParseInt64BestEffort. rewrite (is_digit_not_minus c Hc), Hd. reflexivity.
  - rewrite string_of_Z_neg.
    destruct (string_of_pos_head p) as (c & r & E & Hc).
    pose proof (digits_val_pos p) as Hd. rewrite E in *.
    unfold ParseInt64BestEffort. cbn [Ascii.eqb Bool.eqb]. rewrite Hd. reflexivity.
Qed.

Lemma digits_val_digits (s : string) (acc : Z) :
  all_bytes is_digit s = false -> digits_val acc s = None.
Proof.
  revert acc. induction s as [|c r IH]; intros acc H; [discriminate H|].
  cbn [all_bytes digits_val] in *. destruct (is_digit c); [|reflexivity].
  now apply IH.
Qed.

(** Anything with a byte that is neither a digit nor the sign is read as 0:
    a fraction, an exponent, a plus sign. *)
Lemma ParseInt64BestEffort_not_integer (s : string) :
  all_bytes (fun c => is_digit c || Ascii.eqb c "-") s = false ->
  ParseInt64BestEffort s = 0.
Proof.
  intros H.
  assert (Hall : forall t, all_bytes (fun c => is_digit c || Ascii.eqb c "-") t = false ->
                           all_bytes is_digit t = false).
  { induction t as [|c r IH]; [easy|]. cbn [all_bytes]. intros Ht.
    destruct (is_digit c); [|reflexivity]. cbn [orb andb] in *. now apply IH. }
  destruct s as [|c r]; [reflexivity|].
  unfold ParseInt64BestEffort.
  destruct (Ascii.eqb_spec c "-"%char) as [->|Hc].
  - cbn [all_bytes] in H. replace (is_digit "-" || Ascii.eqb "-" "-") with true in H by reflexivity.
    cbn [andb] in H. destruct r as [|d r]; [reflexivity|].
    now rewrite (digits_val_digits _ 0 (Hall _ H)).
  - now rewrite (digits_val_digits _ 0 (Hall _ H)).
Qed.

Section Count.

Variable Client : Transport.
Variable config : Configuration.

(** X8: how [query_count_database] reads the reply of the count endpoint.
    The member "count" is read as a plain decimal integer: a numeral of an
    integer that fits [int] gives that integer; a numeral too large for
    [int], a number written with a fraction, an exponent or a plus sign, a
    value that is not a number (a string holding digits included) and a
    reply without the member all give 0, the count on which [main] gives up
    with nothing to dump. *)
Theorem count_reply_is_read (st : State) (body : string) (json : Value) :
  Client (count_request config) = ReplyStatus StatusOK body ->
  ParseBytes body = Some json ->
  let result := snd (query_count_database Client config st) in
  (forall z, Get (Some json) ["count"] = Some (VNumber (string_of_Z z)) ->
     result = Ok (if in_int z then z else 0))
  /\ (forall s, Get (Some json) ["count"] = Some (VNumber s) ->
        all_bytes (fun c => is_digit c || Ascii.eqb c "-") s = false ->
        result = Ok 0)
  /\ (forall x, Get (Some json) ["count"] = Some x -> (forall s, x <> VNumber s) ->
        result = Ok 0)
  /\ (Get (Some json) ["count"] = None -> result = Ok 0).
Proof.
  intros Hreply Hparse result.
  assert (Hres : result = Ok (reported_count json)).
  { unfold result. rewrite query_count_database_unfold, Hreply.
    cbn [Z.eqb StatusOK Pos.eqb snd]. now rewrite Hparse. }
  rewrite Hres. unfold reported_count, Exists, GetInt.
  repeat split.
  - intros z ->. now rewrite ParseInt64BestEffort_decimal.
  - intros s -> Hs. now rewrite ParseInt64BestEffort_not_integer.
  - intros x -> Hx. destruct x; try reflexivity. now destruct (Hx s).
  - intros ->. reflexivity.
Qed.

End Count.

Lemma count_reply_is_read_witness :
  snd (query_count_database demo.client demo.config
         {| ctx := {| Size := 2; After := ""; Counter := 0; Template := query_nodes |};
            requests := [] |})
  = Ok 5.
Proof.
  refine (proj1 (count_reply_is_read demo.client demo.config _
                   (MarshalTo (VObject [("count", VNumber "5");
                                        ("_shards", VObject [("total", VNumber "1");
                                                             ("successful", VNumber "1");
                                                             ("failed", VNumber "0")])]))
                   (VObject [("count", VNumber "5");
                             ("_shards", VObject [("total", VNumber "1");
                                                  ("successful", VNumber "1");
                                                  ("failed", VNumber "0")])])
                   _ _) 5 _); vm_compute; reflexivity.
Defined.

(** ** The query document as JSON *)

Definition query_value (W : Z) (c : string) : Value :=
  VObject
    ([("size", VNumber (string_of_Z W));
      ("query", VObject [("bool", VObject [("must", VObject [("match_all", VObject [])])])])]
     ++ (if String.eqb c "" then [] else [("search_after", VArray [VString c])])
     ++ [("sort", VArray [VObject [("_id", VString "asc")]])]).

Lemma digits_number_chars (d : Decimal.uint) :
  all_bytes is_number_char (NilEmpty.string_of_uint d) = true.
Proof.
  induction d; cbn [NilEmpty.string_of_uint all_bytes]; [reflexivity|..];
    rewrite IHd; reflexivity.
Qed.

Lemma string_of_Z_number (z : Z) : number_ok (string_of_Z z) = true.
Proof.
  destruct z as [|p|p]; [reflexivity|..].
  - rewrite string_of_Z_pos. destruct (string_of_pos_head p) as (c & r & E & _).
    unfold number_ok. rewrite digits_number_chars, E. reflexivity.
  - rewrite string_of_Z_neg. unfold number_ok. cbn [all_bytes String.eqb].
    rewrite digits_number_chars. reflexivity.
Qed.

Definition sort_clause : string :=
  LF +:+ TAB +:+ quoted "sort" +:+ ": [" +:+ LF +:+
  TAB +:+ "  { " +:+ quoted "_id" +:+ ": " +:+ quoted "asc" +:+ " } " +:+ LF +:+
  TAB +:+ "]" +:+ LF +:+ "}".

Definition sort_member : string * Value :=
  ("sort", VArray [VObject [("_id", VString "asc")]]).

Lemma parse_sort_clause (f : nat) :
  parseMembers (6 + f) 1 sort_clause = Some ([sort_member], "").
Proof. vm_compute. reflexivity. Qed.

Lemma parseItems_S f d s :
  parseItems (S f) d s =
    match parseValue f d (skipWS s) with
    | None => None
    | Some (v, s1) =>
        match skipWS s1 with
        | EmptyString => None
        | String c r =>
            if Ascii.eqb c "," then
              match parseItems f d r with
              | Some (a, t) => Some (v :: a, t)
              | None => None
              end
            else if Ascii.eqb c "]" then Some ([v], r)
            else None
        end
    end.
Proof. reflexivity. Qed.

Lemma parseMembers_S f d s :
  parseMembers (S f) d s =
    match skipWS s with
    | EmptyString => None
    | String q r0 =>
        if negb (Ascii.eqb q quote) then None
        else
          match parseRawString r0 with
          | None => None
          | Some (k, s1) =>
              match skipWS s1 with
              | EmptyString => None
              | String c1 s2 =>
                  if negb (Ascii.eqb c1 ":") then None
                  else
                    match parseValue f d (skipWS s2) with
                    | None => None
                    | Some (v, s3) =>
                        match skipWS s3 with
                        | EmptyString => None
                        | String c r =>
                            if Ascii.eqb c "," then
                              match parseMembers f d r with
                              | Some (kvs, t) => Some ((k, v) :: kvs, t)
                              | None => None
                              end
                            else if Ascii.eqb c "}" then Some ([(k, v)], r)
                            else None
                        end
                    end
              end
          end
    end.
Proof. reflexivity. Qed.

Lemma parseRawString_S c r :
  parseRawString (String c r) =
    if Ascii.eqb c quote then Some ("", r)
    else if Ascii.eqb c "\"%char then
      match r with
      | EmptyString => None
      | String d r' =>
          match parseRawString r' with
          | Some (a, t) => Some (String c (String d a), t)
          | None => None
          end
      end
    else
      match parseRawString r with
      | Some (a, t) => Some (String c a, t)
      | None => None
      end.
Proof. reflexivity. Qed.

Lemma skipWS_S c r : skipWS (String c r) = if is_ws c then skipWS r else String c r.
Proof. reflexivity. Qed.

(** The scanners are run over the bytes that are given, one byte at a
    time. *)
Ltac scan_bytes :=
  repeat first
    [ progress eval_bytes
    | match goal with
      | |- context [skipWS (String (Ascii _ _ _ _ _ _ _ _) _)] => rewrite skipWS_S
      | |- context [parseRawString (String (Ascii _ _ _ _ _ _ _ _) _)] =>
          rewrite parseRawString_S
      end
    | progress cbn [negb] ].

(** One call of the parser on a text whose first bytes are given. *)
Ltac parse_step :=
  first [rewrite parseValue_S | rewrite parseMembers_S | rewrite parseItems_S];
  repeat match goal with
         | |- context [(MaxDepth <? ?n)%nat] =>
             let v := eval vm_compute in (MaxDepth <? n)%nat in
             change (MaxDepth <? n)%nat with v
         end;
  scan_bytes.

Lemma parse_string_value f d c rest :
  (d < MaxDepth)%nat ->
  raw_ok c = true ->
  parseValue (S f) d (String quote (c +:+ String quote rest)) = Some (VString c, rest).
Proof.
  intros Hd Hc. rewrite parseValue_S.
  replace (MaxDepth <? S d)%nat with false by (symmetry; apply Nat.ltb_ge; lia).
  eval_bytes. now rewrite (parseRawString_quoted (String.length c)) by (exact Hc || lia).
Qed.

Lemma parse_number_value f d ns c rest :
  (d < MaxDepth)%nat ->
  number_ok ns = true ->
  is_number_char c = false ->
  parseValue (S f) d (ns +:+ String c rest) = Some (VNumber ns, String c rest).
Proof.
  intros Hd Hn Hc.
  apply (parse_marshal (VNumber ns) Hn (S f) d (String c rest)).
  - cbn [weight]. lia.
  - cbn [height]. lia.
  - exact Hc.
Qed.

Lemma parse_search_after_clause (f : nat) (c : string) :
  raw_ok c = true -> c <> "" ->
  parseMembers (7 + f) 1 (search_after_clause c +:+ sort_clause)
  = Some ([("search_after", VArray [VString c]); sort_member], "").
Proof.
  intros Hc Hne. unfold search_after_clause.
  destruct (String.eqb_spec c "") as [->|_]; [congruence|].
  unfold quoted, LF, TAB. repeat (rewrite ?append_assoc; cbn [String.append]).
  cbn [Nat.add]. parse_step. parse_step. parse_step.
  fold quote. rewrite parse_string_value by (exact Hc || (unfold MaxDepth; lia)).
  scan_bytes.
  change (S (S (S (S (S (S f)))))) with (6 + f)%nat.
  rewrite (parse_sort_clause f). reflexivity.
Qed.

Definition query_clause : string :=
  "," +:+ LF +:+
  TAB +:+ quoted "query" +:+ ": {" +:+ quoted "bool" +:+ ": {" +:+ quoted "must" +:+ ": {"
      +:+ quoted "match_all" +:+ ": {}}}},".

Lemma query_document_split (W : Z) (c : string) :
  query_document W c
  = "{" +:+ LF +:+ TAB +:+ quoted "size" +:+ ": " +:+ string_of_Z W +:+ query_clause
    +:+ search_after_clause c +:+ sort_clause.
Proof.
  unfold query_document, query_clause, sort_clause, quoted, LF, TAB.
  repeat (rewrite ?append_assoc; cbn [String.append]). reflexivity.
Qed.

Lemma parse_query_clause (f : nat) (W : Z) (c : string) :
  parseValue (13 + f) 0
    ("{" +:+ LF +:+ TAB +:+ quoted "size" +:+ ": " +:+ string_of_Z W +:+ query_clause
     +:+ search_after_clause c +:+ sort_clause)
  = match parseMembers (10 + f) 1 (search_after_clause c +:+ sort_clause) with
    | Some (tail, t) =>
        Some (VObject
                (("size", VNumber (string_of_Z W))
                 :: ("query",
                     VObject [("bool",
                               VObject [("must", VObject [("match_all", VObject [])])])])
                 :: tail), t)
    | None => None
    end.
Proof.
  unfold query_clause, quoted, LF, TAB.
  repeat (rewrite ?append_assoc; cbn [String.append]).
  cbn [Nat.add] in *. parse_step. parse_step.
  destruct (number_ok_cons _ (string_of_Z_number W)) as (c0 & r0 & E & Hc0 & _).
  destruct (number_char_plain c0 Hc0) as (Hws & _).
  rewrite E at 1. cbn [String.append]. rewrite skipWS_head by exact Hws.
  rewrite append_String, <- E.
  rewrite parse_number_value
    by (reflexivity || apply string_of_Z_number || (unfold MaxDepth; lia)).
  scan_bytes.
  do 8 parse_step.
  destruct (parseMembers _ 1 _) as [[tail t]|]; reflexivity.
Qed.

Lemma query_length (W : Z) (c : string) :
  exists f, (2 * String.length (query_document W c) + 2 = 13 + f)%nat.
Proof.
  exists (2 * String.length (query_document W c) + 2 - 13)%nat.
  rewrite query_document_split. unfold sort_clause, quoted, LF, TAB.
  rewrite !length_append. cbn [String.length]. lia.
Qed.

Lemma ParseBytes_query (W : Z) (c : string) :
  exists f,
    ParseBytes (query_document W c)
    = match parseMembers (10 + f) 1 (search_after_clause c +:+ sort_clause) with
      | Some (tail, t) =>
          match skipWS t with
          | EmptyString =>
              Some (VObject
                      (("size", VNumber (string_of_Z W))
                       :: ("query",
                           VObject [("bool",
                                     VObject [("must",
                                               VObject [("match_all", VObject [])])])])
                       :: tail))
          | String _ _ => None
          end
      | None => None
      end.
Proof.
  destruct (query_length W c) as [f Hf]. exists f. unfold ParseBytes.
  assert (Hs : skipWS (query_document W c) = query_document W c) by reflexivity.
  rewrite Hs, Hf, query_document_split, parse_query_clause.
  destruct (parseMembers _ 1 _) as [[tail t]|]; reflexivity.
Qed.

Lemma parse_query_document (W : Z) (c : string) :
  raw_ok c = true ->
  ParseBytes (query_document W c) = Some (query_value W c).
Proof.
  intros Hc. destruct (ParseBytes_query W c) as [f ->]. unfold query_value.
  destruct (String.eqb_spec c "") as [->|Hne].
  - change (search_after_clause "" +:+ sort_clause) with sort_clause.
    change (10 + f)%nat with (6 + (4 + f))%nat.
    now rewrite (parse_sort_clause (4 + f)).
  - change (10 + f)%nat with (7 + (3 + f))%nat.
    rewrite (parse_search_after_clause (3 + f) c Hc Hne).
    destruct (String.eqb_spec c "") as [->|_]; [congruence|reflexivity].
Qed.



(** ** Cursors that need escaping *)

Lemma unescape_loop_plain (f : nat) : forall s,
  contains_byte "\" s = false -> unescape_loop f s = s.
Proof.
  induction f as [|f IH]; intros [|c r] H; try reflexivity.
  cbn [contains_byte] in H. apply orb_false_iff in H. destruct H as [Hc Hr].
  cbn [unescape_loop]. now rewrite Hc, IH.
Qed.

Lemma unescape_loop_prefix (a : string) : forall f t,
  contains_byte "\" a = false ->
  unescape_loop (String.length a + f) (a +:+ t) = a +:+ unescape_loop f t.
Proof.
  induction a as [|c r IH]; intros f t H; [reflexivity|].
  cbn [contains_byte] in H. apply orb_false_iff in H. destruct H as [Hc Hr].
  cbn [String.length Nat.add String.append unescape_loop]. now rewrite Hc, IH.
Qed.

Lemma contains_byte_app c a b :
  contains_byte c (a +:+ b) = contains_byte c a || contains_byte c b.
Proof.
  induction a as [|d r IH]; [reflexivity|].
  cbn [String.append contains_byte]. now rewrite IH, orb_assoc.
Qed.

(** The text of a string value in which one byte is escaped by a
    backslash, between two texts without backslash, as [GetStringBytes]
    returns it. *)
Lemma unescape_one (a b : string) (ch : ascii) (out : string) :
  contains_byte "\" a = false ->
  contains_byte "\" b = false ->
  (forall f s, unescape_loop (S f) (String "\" (String ch s)) = out +:+ unescape_loop f s) ->
  unescapeStringBestEffort (a +:+ String "\" (String ch b)) = a +:+ out +:+ b.
Proof.
  intros Ha Hb Hch. unfold unescapeStringBestEffort.
  rewrite contains_byte_app. cbn [contains_byte]. eval_bytes.
  rewrite orb_true_r, length_append. cbn [String.length orb].
  rewrite unescape_loop_prefix, Hch, unescape_loop_plain by assumption.
  reflexivity.
Qed.

(** The first byte after a string in an array that makes the parser give
    up: anything but white space, a comma and the closing bracket. *)
Definition breaks_array (b : string) : bool :=
  match b with
  | EmptyString => true
  | String ch _ =>
      negb (is_ws ch || Ascii.eqb ch "," || Ascii.eqb ch "]")
  end.

Lemma parse_broken_clause (f : nat) (a b : string) :
  raw_ok a = true ->
  breaks_array b = true ->
  parseMembers (10 + f) 1 (search_after_clause (a +:+ String quote b) +:+ sort_clause) = None.
Proof.
  intros Ha Hb. unfold search_after_clause.
  assert (Hne : String.eqb (a +:+ String quote b) "" = false) by now destruct a.
  rewrite Hne. unfold quoted, LF, TAB.
  repeat (rewrite ?append_assoc; cbn [String.append]).
  cbn [Nat.add]. parse_step. parse_step. parse_step.
  fold quote. rewrite parse_string_value by (exact Ha || (unfold MaxDepth; lia)).
  destruct b as [|ch t]; cbn [String.append].
  - scan_bytes. reflexivity.
  - cbn [breaks_array] in Hb. apply negb_true_iff in Hb.
    apply orb_false_iff in Hb. destruct Hb as [Hb H3].
    apply orb_false_iff in Hb. destruct Hb as [H1 H2].
    rewrite skipWS_head by exact H1. now rewrite H2, H3.
Qed.

Lemma raw_ok_plain (s : string) :
  contains_byte quote s = false -> contains_byte "\" s = false -> raw_ok s = true.
Proof.
  induction s as [|c r IH]; [reflexivity|]. cbn [contains_byte raw_ok]. intros Hq Hb.
  apply orb_false_iff in Hq. destruct Hq as [Hq1 Hq2].
  apply orb_false_iff in Hb. destruct Hb as [Hb1 Hb2].
  rewrite Hq1, Hb1. now apply IH.
Qed.

Lemma sort_text_string (hit : Value) (raw : string) :
  Get (Some hit) ["sort"; "0"] = Some (VString raw) ->
  sort_text hit = unescapeStringBestEffort raw.
Proof. intros H. unfold sort_text, GetStringBytes. now rewrite H. Qed.

(** X10: the cursor is written into the query document as it is, without
    escaping.  A hit whose first sort value is a string with an escaped
    quote ([a\"b] in the reply) gives the cursor [a"b], and the query
    document built from it is not JSON: the next search request has a
    body that does not parse.  A hit whose sort value holds an escaped
    backslash followed by [n] gives a cursor whose document does parse, but
    the cursor a service reads from it is another text, with a line feed
    in place of the two bytes. *)
Theorem cursor_is_not_escaped (W : Z) (c : Context) (hit : Value) (a b : string) :
  contains_byte quote a = false -> contains_byte "\" a = false ->
  contains_byte quote b = false -> contains_byte "\" b = false ->
  (Get (Some hit) ["sort"; "0"] = Some (VString (a +:+ String "\" (String quote b))) ->
   breaks_array b = true ->
   After (advance c hit) = a +:+ String quote b
   /\ ParseBytes (query_document W (After (advance c hit))) = None)
  /\ (Get (Some hit) ["sort"; "0"]
        = Some (VString (a +:+ String "\" (String "\" (String "n" b)))) ->
      let cursor := After (advance c hit) in
      cursor = a +:+ String "\" (String "n" b)
      /\ ParseBytes (query_document W cursor) = Some (query_value W cursor)
      /\ GetStringBytes (Some (query_value W cursor)) ["search_after"; "0"]
         = Some (a +:+ LF +:+ b)
      /\ a +:+ LF +:+ b <> cursor).
Proof.
  intros Haq Hab Hbq Hbb. split.
  - intros Hsort Hbreak.
    assert (Hc : After (advance c hit) = a +:+ String quote b).
    { rewrite advance_After, (sort_text_string hit _ Hsort).
      rewrite (unescape_one a b quote (String quote "")) by (assumption || reflexivity).
      cbn [String.append]. now destruct a. }
    split; [exact Hc|]. rewrite Hc.
    destruct (ParseBytes_query W (a +:+ String quote b)) as [f ->].
    now rewrite parse_broken_clause by (try apply raw_ok_plain; assumption).
  - intros Hsort cursor.
    assert (Hc : cursor = a +:+ String "\" (String "n" b)).
    { unfold cursor. rewrite advance_After, (sort_text_string hit _ Hsort).
      rewrite (unescape_one a (String "n" b) "\" (String "\" ""))
        by (assumption || reflexivity).
      cbn [String.append]. now destruct a. }
    assert (Hraw : raw_ok cursor = true).
    { rewrite Hc. clear Hc cursor Hsort. induction a as [|x r IH].
      - cbn [String.append raw_ok]. eval_bytes. now apply raw_ok_plain.
      - cbn [contains_byte] in Haq, Hab.
        apply orb_false_iff in Haq. destruct Haq as [Hq1 Hq2].
        apply orb_false_iff in Hab. destruct Hab as [Hb1 Hb2].
        cbn [String.append raw_ok]. rewrite Hq1, Hb1. now apply IH. }
    split; [exact Hc|]. split; [exact (parse_query_document W cursor Hraw)|].
    assert (Hread : unescapeStringBestEffort cursor = a +:+ LF +:+ b).
    { rewrite Hc. now rewrite (unescape_one a b "n" LF) by (assumption || reflexivity). }
    split.
    + unfold query_value. rewrite Hc at 1.
      assert (Hne : String.eqb (a +:+ String "\" (String "n" b)) "" = false) by now destruct a.
      rewrite Hne. cbn [app]. rewrite <- Hread. reflexivity.
    + rewrite Hc. clear. induction a as [|x r IH]; cbn [String.append].
      * intros H. discriminate H.
      * intros H. apply IH. now injection H.
Qed.

Lemma cursor_is_not_escaped_witness :
  let hit := VObject [("sort", VArray [VString ("x" +:+ String "\" (String quote "y"))])] in
  let c := {| Size := 2; After := ""; Counter := 0; Template := query_nodes |} in
  After (advance c hit) = "x" +:+ String quote "y"
  /\ ParseBytes (query_document 2 (After (advance c hit))) = None.
Proof.
  intros hit c.
  apply (proj1 (cursor_is_not_escaped 2 c hit "x" "y" eq_refl eq_refl eq_refl eq_refl));
    reflexivity.
Defined.

(** ** One record per line *)

Definition lf : ascii := Eval cbv in char_of 10.

(** The text holds no line feed. *)
Definition one_line (s : string) : bool := negb (contains_byte lf s).

(** No number, string or member name of the value holds a line feed. *)
Fixpoint texts_one_line (v : Value) : bool :=
  match v with
  | VNull | VTrue | VFalse => true
  | VNumber s => one_line s
  | VString raw => one_line raw
  | VArray a => forallb texts_one_line a
  | VObject kvs => forallb (fun kv => one_line (fst kv) && texts_one_line (snd kv)) kvs
  end.

Lemma one_line_app (a b : string) : one_line (a +:+ b) = one_line a && one_line b.
Proof. unfold one_line. now rewrite contains_byte_app, negb_orb. Qed.

Lemma one_line_quoted (k : string) : one_line (quoted k) = one_line k.
Proof.
  rewrite <- (append_nil_r (quoted k)), quoted_append.
  change (String quote (k +:+ String quote "")) with (String quote "" +:+ k +:+ String quote "").
  rewrite !one_line_app.
  change (one_line (String quote "")) with true. now rewrite andb_true_r.
Qed.

Lemma marshal_items_one_line (a : list Value) :
  Forall (fun x => one_line (MarshalTo x) = texts_one_line x) a ->
  one_line (marshal_items a) = forallb texts_one_line a.
Proof.
  induction 1 as [|x r Hx Hr IH]; [reflexivity|].
  destruct r as [|y r].
  - cbn [marshal_items forallb]. now rewrite Hx, andb_true_r.
  - rewrite marshal_items_cons, !one_line_app, Hx, IH. reflexivity.
Qed.

Lemma marshal_members_one_line (kvs : Members) :
  Forall (fun kv => one_line (MarshalTo (snd kv)) = texts_one_line (snd kv)) kvs ->
  one_line (marshal_members kvs)
  = forallb (fun kv => one_line (fst kv) && texts_one_line (snd kv)) kvs.
Proof.
  induction 1 as [|[k x] r Hx Hr IH]; [reflexivity|]. cbn [snd] in Hx.
  destruct r as [|kv r].
  - rewrite marshal_members_one, !one_line_app, one_line_quoted, Hx.
    change (one_line ":") with true.
    cbn [forallb fst snd andb]. now rewrite andb_true_r.
  - rewrite marshal_members_cons, !one_line_app, one_line_quoted, Hx, IH.
    change (one_line ":") with true. change (one_line ",") with true.
    cbn [forallb fst snd andb]. now rewrite andb_assoc.
Qed.

(** The text of a value holds a line feed exactly when one of the texts
    in the value does: [MarshalTo] adds none. *)
Lemma MarshalTo_one_line (v : Value) : one_line (MarshalTo v) = texts_one_line v.
Proof.
  induction v as [| | |s|raw|a IH|kvs IH] using Value_ind'; try reflexivity.
  - cbn [MarshalTo texts_one_line]. fold (quoted raw). apply one_line_quoted.
  - rewrite MarshalTo_array, !one_line_app, (marshal_items_one_line a IH).
    cbn [texts_one_line]. now rewrite andb_true_r.
  - rewrite MarshalTo_object, !one_line_app, (marshal_members_one_line kvs IH).
    cbn [texts_one_line]. now rewrite andb_true_r.
Qed.

Lemma strip_sort_one_line (v : Value) :
  texts_one_line v = true -> texts_one_line (strip_sort v) = true.
Proof.
  intros H. destruct (strip_sort_spec v) as [[_ ->]|(l1 & k & x & l2 & -> & -> & _)];
    [exact H|].
  cbn [texts_one_line] in *. rewrite forallb_app in *. cbn [forallb] in H.
  apply andb_true_iff in H. destruct H as [H1 H2].
  apply andb_true_iff in H2. destruct H2 as [_ H2]. now rewrite H1, H2.
Qed.

(** A text is cut at its first line feed in one way only. *)
Lemma first_line_unique (r : string) : forall r' x x',
  one_line r = true -> one_line r' = true ->
  r +:+ String lf x = r' +:+ String lf x' -> r = r' /\ x = x'.
Proof.
  induction r as [|c r IH]; intros [|c' r'] x x' Hr Hr' E; cbn [String.append] in E.
  - injection E as <-. now split.
  - injection E as <- _. discriminate Hr'.
  - injection E as -> _. discriminate Hr.
  - injection E as <- E.
    assert (Hc : forall t, one_line (String c t) = true -> one_line t = true).
    { unfold one_line. cbn [contains_byte]. intros t Ht.
      apply negb_true_iff, orb_false_iff in Ht. destruct Ht as [_ ->]. reflexivity. }
    destruct (IH r' x x' (Hc _ Hr) (Hc _ Hr') E) as [-> ->]. now split.
Qed.

Lemma lines_unique (rs : list string) : forall rs',
  Forall (fun r => one_line r = true) rs ->
  Forall (fun r => one_line r = true) rs' ->
  lines rs = lines rs' -> rs = rs'.
Proof.
  induction rs as [|r rs IH]; intros [|r' rs'] H H' E; cbn [lines] in E.
  - reflexivity.
  - destruct r'; discriminate E.
  - destruct r; discriminate E.
  - inversion H as [|? ? Hr Hrs]. inversion H' as [|? ? Hr' Hrs']. subst.
    destruct (first_line_unique r r' _ _ Hr Hr' E) as [-> E'].
    f_equal. now apply IH.
Qed.



(** ** How a run ends *)

(** A search reply that ends the paging: status 200, a body that parses,
    a top-level "hits", and no hit in the array under it. *)
Definition empty_page (reply : Reply) : Prop :=
  exists input json,
    reply = ReplyStatus StatusOK input
    /\ ParseBytes input = Some json
    /\ Exists (Some json) ["hits"] = true
    /\ GetArray (Get (Some json) ["hits"; "hits"]) [] = [].

Section Ending.

Variable Client : Transport.
Variable config : Configuration.

(** A turn of the loop that fetched no record was answered by an empty
    page. *)
Lemma producer_fetch_empty st st' :
  Template (ctx st) = query_nodes ->
  producer_fetch Client config st = (st', Ok []) ->
  st' = issue st (search_request config (query_document (Size (ctx st)) (After (ctx st))))
  /\ empty_page (Client (search_request config
                           (query_document (Size (ctx st)) (After (ctx st))))).
Proof.
  intros Ht Hf.
  assert (Hexec : template.Execute (context_data (ctx st)) (Template (ctx st))
                  = Some (query_document (Size (ctx st)) (After (ctx st))))
    by (rewrite Ht; apply Execute_query).
  rewrite (producer_fetch_unfold Client config st _ Hexec) in Hf.
  destruct (Client _) as [|code input]; [discriminate Hf|].
  destruct (Z.eqb_spec code StatusOK) as [->|_]; [|discriminate Hf].
  rewrite parse_search_results_unfold in Hf.
  destruct (ParseBytes input) as [json|] eqn:Ep; [|discriminate Hf].
  destruct (Exists (Some json) ["hits"]) eqn:Ee; [|discriminate Hf].
  destruct (GetArray _ _) as [|v r] eqn:Ea.
  - injection Hf as <-. split; [reflexivity|]. now exists input, json.
  - cbv zeta in Hf. rewrite parse_hits_spec in Hf. cbn [fst snd app map] in Hf. discriminate Hf.
Qed.

(** A run of [producer] that returns without a fatal error made its last
    request for a page that came back empty. *)
Lemma producer_last_page fuel : forall tasks0 st st' tasks1,
  Template (ctx st) = query_nodes ->
  producer Client fuel config tasks0 st = Some (st', Ok tasks1) ->
  exists reqs body,
    requests st' = requests st ++ reqs ++ [search_request config body]
    /\ empty_page (Client (search_request config body)).
Proof.
  induction fuel as [|fuel IH]; intros tasks0 st st' tasks1 Ht H; [discriminate H|].
  rewrite producer_S in H.
  destruct (producer_fetch_any Client config st Ht) as (Hreq & _ & Htmpl & _ & _).
  destruct (producer_fetch Client config st) as [st1 [r|e]] eqn:Ef; cbn [fst snd] in *;
    [|discriminate H].
  destruct r as [|x r]; cbn [length Nat.eqb] in H.
  - injection H as <- _.
    destruct (producer_fetch_empty st st1 Ht Ef) as [-> Hp].
    exists [], (query_document (Size (ctx st)) (After (ctx st))).
    split; [reflexivity|exact Hp].
  - assert (Ht1 : Template (ctx st1) = query_nodes) by congruence.
    destruct (IH _ _ _ _ Ht1 H) as (reqs & body & Hb & Hp).
    exists (search_request config (query_document (Size (ctx st)) (After (ctx st))) :: reqs),
      body.
    split; [|exact Hp]. rewrite Hb, Hreq, <- app_assoc. reflexivity.
Qed.

End Ending.

(** X12: a run ends normally only on an empty page.  Whatever the
    capacity of the channel and the interleaving, when main has returned
    the requests of the run are the count request, then search requests,
    and the last of them was answered with status 200 by a body that
    parses, has a top-level "hits" and holds no hit; so against a service
    that never answers a search with such a page, main never returns: the
    count read at the start does not bound the run. *)
Theorem run_ends_on_empty_page
  (Client : Transport) (brotli_encode : Z -> string -> string)
  (config : Configuration) (capacity : nat) (files : gmap string string) :
  (forall s,
     reachable Client brotli_encode config capacity query_nodes files s ->
     main_pc s = MReturned ->
     exists reqs body,
       requests (state s) = count_request config :: reqs ++ [search_request config body]
       /\ empty_page (Client (search_request config body)))
  /\ ((forall body, ~ empty_page (Client (search_request config body))) ->
      forall s,
        reachable Client brotli_encode config capacity query_nodes files s ->
        main_pc s <> MReturned).
Proof.
  assert (Hend : forall s,
             reachable Client brotli_encode config capacity query_nodes files s ->
             main_pc s = MReturned ->
             exists reqs body,
               requests (state s)
               = count_request config :: reqs ++ [search_request config body]
               /\ empty_page (Client (search_request config body))).
  { intros s Hs Hm.
    destruct (returned_run Client brotli_encode config capacity query_nodes files s Hs Hm)
      as (_ & k & Hk).
    rewrite producer_start_eq in Hk.
    apply producer_last_page in Hk; [|reflexivity].
    destruct Hk as (reqs & body & Hreq & Hp).
    exists reqs, body. split; [exact Hreq|exact Hp]. }
  split; [exact Hend|].
  intros Hnever s Hs Hm.
  destruct (Hend s Hs Hm) as (reqs & body & _ & Hp). exact (Hnever body Hp).
Qed.

Lemma run_ends_on_empty_page_witness :
  let s := run demo.client demo.no_brotli demo.config 3 demo.schedule
             (initial demo.config query_nodes ∅) in
  exists reqs body,
    requests (state s)
    = count_request demo.config :: reqs ++ [search_request demo.config body]
    /\ empty_page (demo.client (search_request demo.config body)).
Proof.
  intros s.
  apply (proj1 (run_ends_on_empty_page demo.client demo.no_brotli demo.config 3 ∅)).
  - apply run_reachable. apply rtc_refl.
  - vm_compute. reflexivity.
Defined.

(** ** No reply is passed over *)

(** A reply the process goes on from: status 200 and a body that is
    JSON. *)
Definition accepted (Client : Transport) (req : Request) : Prop :=
  exists input json,
    Client req = ReplyStatus StatusOK input /\ ParseBytes input = Some json.

Section Replies.

Variable Client : Transport.
Variable brotli_encode : Z -> string -> string.
Variable config : Configuration.
Variable capacity : nat.
Variable nodes : template.Template.
Variable files : gmap string string.

Abbreviation step_of := (step_thread Client brotli_encode config capacity).
Abbreviation reach := (reachable Client brotli_encode config capacity nodes files).

(** One turn of the loop issues at most one request, and goes on only
    from an accepted reply. *)
Lemma producer_fetch_replies st :
  match snd (producer_fetch Client config st) with
  | Ok _ =>
      exists r, requests (fst (producer_fetch Client config st)) = requests st ++ [r]
                /\ accepted Client r
  | Fatal _ =>
      exists l, requests (fst (producer_fetch Client config st)) = requests st ++ l
                /\ (length l <= 1)%nat
  end.
Proof.
  destruct (template.Execute (context_data (ctx st)) (Template (ctx st))) as [body|] eqn:Ex.
  - pose proof (producer_fetch_requests Client config st body Ex) as Hreq.
    rewrite (producer_fetch_unfold Client config st body Ex) in *.
    destruct (Client (search_request config body)) as [|code input] eqn:Er.
    + exists [search_request config body]. now split.
    + destruct (Z.eqb_spec code StatusOK) as [->|_].
      * rewrite parse_search_results_unfold in *.
        destruct (ParseBytes input) as [json|] eqn:Ep.
        -- destruct (Exists (Some json) ["hits"]).
           ++ assert (Hacc : accepted Client (search_request config body))
                by now exists input, json.
              destruct (GetArray _ _); cbn [snd]; now exists (search_request config body).
           ++ exists [search_request config body]. now split.
        -- exists [search_request config body]. now split.
      * exists [search_request config body]. now split.
  - unfold producer_fetch, query_search_database, bind, get_ctx, check. rewrite Ex.
    unfold fatal. cbn [snd fst]. exists []. rewrite app_nil_r. split; [reflexivity|cbn; lia].
Qed.

Lemma main_start_replies s :
  requests (state (main_start Client config s)) = requests (state s) ++ [count_request config]
  /\ (died (main_start Client config s) = None -> accepted Client (count_request config)).
Proof.
  unfold main_start. rewrite query_count_database_unfold.
  destruct (Client (count_request config)) as [|code body] eqn:Er; [now split|].
  destruct (Z.eqb_spec code StatusOK) as [->|_]; [|now split].
  destruct (ParseBytes body) as [json|] eqn:Ep; [|now split].
  destruct (_ =? 0); (split; [reflexivity|]); intros _; now exists body, json.
Qed.

(** All requests but the last were accepted; the last one too, unless the
    process died. *)
Definition replies_inv (s : System) : Prop :=
  Forall (accepted Client) (removelast (requests (state s)))
  /\ (died s = None -> Forall (accepted Client) (requests (state s))).

Lemma Forall_removelast {A} (P : A -> Prop) (l : list A) :
  Forall P l -> Forall P (removelast l).
Proof.
  induction 1 as [|x r Hx Hr IH]; [constructor|].
  cbn [removelast]. destruct r; [constructor|]. now constructor.
Qed.

Lemma replies_inv_step y z t : replies_inv y -> step_of t y = Some z -> replies_inv z.
Proof.
  intros [Hlast Hlive] Hstep.
  assert (Hd : died y = None).
  { destruct (died y) eqn:E; [|reflexivity].
    rewrite dead_no_step in Hstep by congruence. discriminate Hstep. }
  specialize (Hlive Hd).
  assert (Hsame : forall z', state z' = state y -> replies_inv z').
  { intros z' Hz. unfold replies_inv. rewrite Hz. now split. }
  step_inv Hstep; subst z; try (apply Hsame; reflexivity).
  - (* main: the count query *)
    destruct (main_start_replies y) as [Hreq Hacc]. unfold replies_inv. rewrite Hreq.
    split.
    + now rewrite removelast_last.
    + intros Hz. apply Forall_app. split; [exact Hlive|]. constructor; [auto|constructor].
  - (* a turn of the loop that fetched a page *)
    pose proof (producer_fetch_replies (state y)) as Hf.
    match goal with E : producer_fetch _ _ _ = _ |- _ => rewrite E in Hf end.
    cbn [fst snd] in Hf. destruct Hf as (req & Hreq & Hacc).
    unfold replies_inv. cbn. rewrite Hreq. split.
    + now rewrite removelast_last.
    + intros _. apply Forall_app. split; [exact Hlive|]. now constructor.
  - (* a turn of the loop that died *)
    pose proof (producer_fetch_replies (state y)) as Hf.
    match goal with E : producer_fetch _ _ _ = _ |- _ => rewrite E in Hf end.
    cbn [fst snd] in Hf. destruct Hf as (l & Hreq & Hl).
    unfold replies_inv. cbn. rewrite Hreq. split; [|discriminate].
    destruct l as [|req [|? ?]]; cbn in Hl; [| |lia].
    * rewrite app_nil_r. now apply Forall_removelast.
    * now rewrite removelast_last.
  - apply Hsame. unfold consume. destruct (out_Write _ _ _ _). reflexivity.
  - apply Hsame. unfold consume. destruct (out_Write _ _ _ _). reflexivity.
Qed.

Lemma replies_inv_reachable s : reach s -> replies_inv s.
Proof.
  revert s. apply reachable_ind.
  - split; [constructor|]. intros _. constructor.
  - intros y z t _ Hstep Hy. exact (replies_inv_step y z t Hy Hstep).
Qed.

End Replies.


